(** * On-demand entry handler (server/on-demand-entry-handler.js)

    A shallow embedding of the on-demand build coordinator of the development
    server: the entry registry, the [make] and [done] compiler hooks, the
    websocket ping handler, [ensurePage] and the periodic disposal of inactive
    entries, followed by the properties of the coordinator that the
    specification states. *)

From Stdlib Require Import Ascii String ZArith.
From stdpp Require Import gmap strings list fin_maps.

Local Open Scope Z_scope.

(** ** Page identifiers *)

Module Page.

(** [page.replace(/\/index$/, '/')]: the regular expression is anchored at the
    end of the input (there is no [m] flag), so the only possible match is the
    final six characters.  The recursion walks the string and replaces the
    remainder when it is exactly ["/index"]. *)
Fixpoint normalizePage (page : string) : string :=
  match page with
  | EmptyString => EmptyString
  | String c rest =>
      if String.eqb page "/index" then "/" else String c (normalizePage rest)
  end.

(** The character ['/'] does not occur in [s]. *)
Fixpoint slashFree (s : string) : bool :=
  match s with
  | EmptyString => true
  | String c rest => negb (Ascii.eqb c "/"%char) && slashFree rest
  end.

End Page.

Export Page.

(** ** Values exchanged with the environment *)

(** The result of [JSON.parse]: a JSON text denotes one of these values.  An
    object lists its own properties, with distinct names. *)
#[warnings="-register-all"]
Inductive json : Type :=
  | JNull
  | JBool (b : bool)
  | JNumber (n : Z)
  | JString (s : string)
  | JArray (items : list json)
  | JObject (props : list (string * json)).

(** What the handlers can throw, and what a promise can be rejected with. *)
Inductive Error : Type :=
  | SyntaxError                 (* JSON.parse on a malformed text *)
  | TypeError                   (* property read on null, call of a non-function *)
  | ResolutionError             (* resolvePath found no source for the page *)
  | BuildError (msg : string)   (* a failure reported by a compilation pass *)
  | PageName (page : string).   (* the name of a page, taken for an error *)

(** The services of the host that the handler calls but does not define. *)
Class Platform := {
  JSON_parse : string → option json;     (* None: JSON.parse throws *)
  path_join : list string → string;      (* path.join *)
  dirname : string                       (* __dirname *)
}.

(** The third argument of [onDemandEntryHandler]. *)
Record Options := {
  dir : string;
  dev : bool;
  maxInactiveAge : Z
}.

(** [maxInactiveAge = 1000 * 25] when the caller leaves it out. *)
Definition defaultMaxInactiveAge : Z := 1000 * 25.

(** The [stats] object handed to the [done] hook; a pass has failed when it
    carries errors. *)
Record Stats := { errors : list string }.

Definition hasErrors (stats : Stats) : bool :=
  match errors stats with [] => false | _ => true end.

(** ** The registry and the state of the handler *)

(** [ADDED], [BUILDING] and [BUILT]. *)
Inductive Status : Type := Added | Building | Built.

Global Instance Status_eq_dec : EqDecision Status.
Proof. solve_decision. Defined.

(** The position of a status in the life cycle. *)
Definition rank (st : Status) : nat :=
  match st with Added => 0 | Building => 1 | Built => 2 end%nat.

(** The objects stored in [entries]; [lastActiveTime] is undefined until the
    [done] hook stamps it. *)
Record EntryInfo := {
  name : string;
  entry : list string;
  pathname : string;
  status : Status;
  lastActiveTime : option Z
}.

Definition setStatus (st : Status) (e : EntryInfo) : EntryInfo :=
  {| name := name e; entry := entry e; pathname := pathname e;
     status := st; lastActiveTime := lastActiveTime e |}.

Definition setLastActiveTime (t : Z) (e : EntryInfo) : EntryInfo :=
  {| name := name e; entry := entry e; pathname := pathname e;
     status := status e; lastActiveTime := Some t |}.

(** The promise created by one call of [ensurePage]; [ppage] is the
    normalized page the call was made for.  A promise is identified by its
    position in the list of promises. *)
Inductive PromiseState : Type :=
  | Pending
  | Resolved
  | Rejected (err : Error).

Record Promise := { ppage : string; pstate : PromiseState }.

(** What the handler does to the outside, newest first. *)
Inductive Effect : Type :=
  | Invalidate                                       (* devMiddleware.invalidate() *)
  | AddEntry (name : string) (entry : list string)   (* addEntry(compilation, ...) *)
  | ScheduleTouch (pathname : string)                (* setTimeout(touch.sync) *)
  | Send (conn : nat) (payload : json)               (* conn.send(JSON.stringify(..)) *)
  | ConsoleLog (msg : string)
  | ConsoleError (msg : string)
  | Notify (page : string) (id : nat).               (* a listener run by emit(page) *)

(** The variables closed over by the handlers.  A listener of [doneCallbacks]
    is the [processCallback] closure of one promise, named by its id. *)
Record State := {
  entries : gmap string EntryInfo;
  lastAccessPages : list string;
  doneCallbacks : gmap string (list nat);
  touchedAPage : bool;
  promises : list Promise;
  effects : list Effect
}.

Definition withEntries (m : gmap string EntryInfo) (s : State) : State :=
  {| entries := m; lastAccessPages := lastAccessPages s;
     doneCallbacks := doneCallbacks s; touchedAPage := touchedAPage s;
     promises := promises s; effects := effects s |}.

Definition withLastAccessPages (l : list string) (s : State) : State :=
  {| entries := entries s; lastAccessPages := l;
     doneCallbacks := doneCallbacks s; touchedAPage := touchedAPage s;
     promises := promises s; effects := effects s |}.

Definition withDoneCallbacks (m : gmap string (list nat)) (s : State) : State :=
  {| entries := entries s; lastAccessPages := lastAccessPages s;
     doneCallbacks := m; touchedAPage := touchedAPage s;
     promises := promises s; effects := effects s |}.

Definition withTouchedAPage (b : bool) (s : State) : State :=
  {| entries := entries s; lastAccessPages := lastAccessPages s;
     doneCallbacks := doneCallbacks s; touchedAPage := b;
     promises := promises s; effects := effects s |}.

Definition withPromises (l : list Promise) (s : State) : State :=
  {| entries := entries s; lastAccessPages := lastAccessPages s;
     doneCallbacks := doneCallbacks s; touchedAPage := touchedAPage s;
     promises := l; effects := effects s |}.

Definition perform (e : Effect) (s : State) : State :=
  {| entries := entries s; lastAccessPages := lastAccessPages s;
     doneCallbacks := doneCallbacks s; touchedAPage := touchedAPage s;
     promises := promises s; effects := e :: effects s |}.

(** [entries = {}], [lastAccessPages = ['']], a fresh emitter and
    [touchedAPage = false]. *)
Definition initial : State :=
  {| entries := ∅; lastAccessPages := [""]; doneCallbacks := ∅;
     touchedAPage := false; promises := []; effects := [] |}.

(** [Object.keys(entries)].  The keys come in the order of the map, not in
    the order in which JavaScript lists them; the order decides only which
    page is touched first and in which order the listeners of different pages
    are called.  Property names inherited from [Object.prototype] are not
    modelled, nor is the assignment to the name [__proto__], which adds no
    key: the results that depend on it say so. *)
Definition keys (m : gmap string EntryInfo) : list string := (map_to_list m).*1.

(** ** Promises and the emitter *)

(** [resolve()] and [reject(err)]: only a pending promise is settled. *)
Definition settle (outcome : PromiseState) (p : Promise) : Promise :=
  match pstate p with
  | Pending => {| ppage := ppage p; pstate := outcome |}
  | _ => p
  end.

(** [new Promise(...)] in a call for [page]. *)
Definition newPromise (page : string) (st : PromiseState) (s : State) : State :=
  withPromises (promises s ++ [{| ppage := page; pstate := st |}]) s.

(** [function processCallback (err) { if (err) return reject(err); resolve() }]
    of the promise [id]. *)
Definition processCallback (id : nat) (err : option Error) (s : State) : State :=
  match err with
  | Some e => withPromises (alter (settle (Rejected e)) id (promises s)) s
  | None => withPromises (alter (settle Resolved) id (promises s)) s
  end.

Definition listeners (page : string) (s : State) : list nat :=
  default [] (doneCallbacks s !! page).

(** The loop of [emit]: the listeners [ids] are called one after the other
    with the argument of the emission. *)
Definition callAll (page : string) (err : option Error) (ids : list nat)
    (s : State) : State :=
  foldl (λ s id, processCallback id err (perform (Notify page id) s)) s ids.

(** [doneCallbacks.emit(page, err)]: every listener of [page] is called, in
    the order of registration; none is removed. *)
Definition emit (page : string) (err : option Error) (s : State) : State :=
  callAll page err (listeners page s) s.

(** What [processCallback] makes of the first argument of the event
    [newListener], the name of the page a listener is being registered for:
    an error, unless the name is the empty string. *)
Definition announcement (page : string) : option Error :=
  if String.eqb page "" then None else Some (PageName page).

(** How a promise is settled by a call of its [processCallback]. *)
Definition settlement (err : option Error) : PromiseState :=
  match err with Some e => Rejected e | None => Resolved end.

(** [doneCallbacks.on(page, processCallback)]: when the emitter has listeners
    under the name [newListener], it first emits [newListener] to them, with
    the name of the page; then the listener is appended to those of [page]. *)
Definition on (page : string) (id : nat) (s : State) : State :=
  let s := emit "newListener" (announcement page) s in
  withDoneCallbacks (<[page := listeners page s ++ [id]]> (doneCallbacks s)) s.

(** ** The compiler hooks *)

(** The body of the [map] in the [make] hook. *)
Definition makePage (s : State) (page : string) : State :=
  match entries s !! page with
  | None => s
  | Some entryInfo =>
      perform (AddEntry (name entryInfo) (entry entryInfo))
        (withEntries (<[page := setStatus Building entryInfo]> (entries s)) s)
  end.

(** [compiler.plugin('make', ...)] *)
Definition onMake (s : State) : State :=
  foldl makePage s (keys (entries s)).

(** The body of the [forEach] in the [done] hook; [now] is [Date.now()]. *)
Definition donePage (now : Z) (s : State) (page : string) : State :=
  match entries s !! page with
  | None => s
  | Some entryInfo =>
      match status entryInfo with
      | Building =>
          let s :=
            if touchedAPage s then s
            else withTouchedAPage true
                   (perform (ScheduleTouch (pathname entryInfo)) s) in
          let s :=
            withEntries
              (<[page := setLastActiveTime now (setStatus Built entryInfo)]>
                 (entries s)) s in
          emit page None s
      | _ => s
      end
  end.

(** [compiler.plugin('done', ...)]; the hook does not look at [stats].  The
    loop is synchronous: [now] stands for the readings of [Date.now()] of all
    its iterations. *)
Definition onDone (stats : Stats) (now : Z) (s : State) : State :=
  foldl (donePage now) s (keys (entries s)).

(** ** The ping handler *)

(** [parsedMessage.page]: reading a property of [null] throws, any other
    value without that property yields [undefined]. *)
Definition getPage (parsedMessage : json) : Error + option json :=
  match parsedMessage with
  | JNull => inl TypeError
  | JObject props => inr (snd <$> List.find (λ kv, String.eqb (fst kv) "page") props)
  | _ => inr None
  end.

(** [normalizePage(JSON.parse(message).page)]; [page.replace] exists only
    when [page] is a string. *)
Definition pingedPage `{Platform} (message : string) : Error + string :=
  match JSON_parse message with
  | None => inl SyntaxError
  | Some parsedMessage =>
      match getPage parsedMessage with
      | inl e => inl e
      | inr (Some (JString page)) => inr (normalizePage page)
      | inr _ => inl TypeError
      end
  end.

(** How a handler ends, with the state it leaves. *)
Inductive Completion : Type :=
  | Normal (s : State)
  | Throw (e : Error) (s : State).

Definition stateOf (c : Completion) : State :=
  match c with Normal s => s | Throw _ s => s end.

(** [lastAccessPages.pop()] *)
Definition pop (l : list string) : list string := removelast l.

(** [lastAccessPages.unshift(page)] *)
Definition unshift (page : string) (l : list string) : list string := page :: l.

(** [conn.on('message', ...)] of the connection [conn].  The lookup in the
    registry stands for [entries[page]] on the names that are not found along
    the prototype chain ([inheritedNames] below). *)
Definition onMessage `{Platform} (conn : nat) (message : string) (now : Z)
    (s : State) : Completion :=
  match pingedPage message with
  | inl e => Throw e s
  | inr page =>
      match entries s !! page with
      | None =>
          Normal
            (perform (Send conn (JObject [("invalid", JBool true)]))
               (perform
                  (ConsoleError
                     ("Client pings, but there's no entry for page: " +:+ page))
                  s))
      | Some entryInfo =>
          match status entryInfo with
          | Built =>
              Normal
                (withEntries
                   (<[page := setLastActiveTime now entryInfo]> (entries s))
                   (withLastAccessPages
                      (unshift page (pop (lastAccessPages s))) s))
          | _ => Normal s
          end
      end
  end.

(** ** ensurePage *)

(** [pathname.substring(dir.length)] *)
Definition substringFrom (n : nat) (s : string) : string :=
  String.substring n (String.length s - n) s.

(** The part of [ensurePage] after [entryInfo] is found absent or [ADDED].
    The insertion stands for [entries[page] = {...}], which adds the key for
    every name but [__proto__]. *)
Definition register `{Platform} (opts : Options) (page pathname : string)
    (id : nat) (s : State) : State :=
  let name := path_join ["bundles"; substringFrom (String.length (dir opts)) pathname] in
  let entry :=
    [ path_join [dirname; ".."; "client/webpack-hot-middleware-client"];
      path_join [dirname; ".."; "client"; "on-demand-entries-client"];
      pathname +:+ "?entry" ] in
  let s := perform (ConsoleLog ("> Building page: " +:+ page)) s in
  let s :=
    withEntries
      (<[page := {| name := name; entry := entry; pathname := pathname;
                    status := Added; lastActiveTime := None |}]> (entries s)) s in
  let s := on page id s in
  perform Invalidate s.

(** [ensurePage(page)].  [resolved] is what [await resolvePath(pagePath)]
    gave for this call: [None] when it threw.  The promise of the call is the
    one at position [length (promises s)] of the resulting state. *)
Definition ensurePage `{Platform} (opts : Options) (page : string)
    (resolved : option string) (s : State) : State :=
  let page := normalizePage page in
  let id := length (promises s) in
  match resolved with
  | None => newPromise page (Rejected ResolutionError) s
  | Some pathname =>
      match entries s !! page with
      | Some entryInfo =>
          match status entryInfo with
          | Built => newPromise page Resolved s
          | Building => on page id (newPromise page Pending s)
          | Added => register opts page pathname id (newPromise page Pending s)
          end
      | None => register opts page pathname id (newPromise page Pending s)
      end
  end.

(** ** Disposal of inactive entries *)

(** The test made on one key by the [forEach] of [disposeInactiveEntries].
    With [lastActiveTime] undefined the subtraction is [NaN] and the
    comparison is false. *)
Definition inactive (entries : gmap string EntryInfo)
    (lastAccessPages : list string) (maxInactiveAge now : Z)
    (page : string) : bool :=
  match entries !! page with
  | None => false
  | Some entryInfo =>
      match status entryInfo with
      | Built =>
          if decide (lastAccessPages !! 0%nat = Some page) then false
          else match lastActiveTime entryInfo with
               | Some t => bool_decide (now - t > maxInactiveAge)
               | None => false
               end
      | _ => false
      end
  end.

(** [disposingPages.join(', ')] *)
Definition joinPages (pages : list string) : string := String.concat ", " pages.

(** [disposeInactiveEntries(devMiddleware, entries, lastAccessPages,
    maxInactiveAge)], run every five seconds; [now] stands for the readings of
    [Date.now()] of the loop. *)
Definition disposeInactiveEntries (maxInactiveAge now : Z) (s : State) : State :=
  let disposingPages :=
    List.filter (inactive (entries s) (lastAccessPages s) maxInactiveAge now)
                (keys (entries s)) in
  match disposingPages with
  | [] => s
  | _ =>
      perform Invalidate
        (perform (ConsoleLog ("> Disposing inactive page(s): " +:+ joinPages disposingPages))
           (withEntries (foldl (λ m page, delete page m) (entries s) disposingPages) s))
  end.

(** ** Runs of the handler *)

(** What can happen to the handler, with the values the environment supplies:
    the outcome of the resolver, the reading of the clock, the statistics of
    the pass, the text of the message. *)
Inductive Event : Type :=
  | EnsurePage (page : string) (resolved : option string)
  | Make
  | Done (stats : Stats) (now : Z)
  | Message (conn : nat) (message : string) (now : Z)
  | Sweep (now : Z).

Definition step `{Platform} (opts : Options) (s : State) (ev : Event) : State :=
  match ev with
  | EnsurePage page resolved => ensurePage opts page resolved s
  | Make => onMake s
  | Done stats now => onDone stats now s
  | Message conn message now => stateOf (onMessage conn message now s)
  | Sweep now => disposeInactiveEntries (maxInactiveAge opts) now s
  end.

Definition run `{Platform} (opts : Options) (evs : list Event) : State :=
  foldl (step opts) initial evs.

(** The ping is accepted: it reaches the update of [lastAccessPages]. *)
Definition accepted `{Platform} (message : string) (s : State) : bool :=
  match pingedPage message with
  | inr page =>
      match entries s !! page with
      | Some entryInfo => bool_decide (status entryInfo = Built)
      | None => false
      end
  | inl _ => false
  end.

(** No ping of the run [evs], started in [s], is accepted. *)
Fixpoint noPingAccepted `{Platform} (opts : Options) (s : State)
    (evs : list Event) : bool :=
  match evs with
  | [] => true
  | ev :: evs =>
      match ev with
      | Message _ message _ => negb (accepted message s)
      | _ => true
      end && noPingAccepted opts (step opts s ev) evs
  end.

(** ** Notions used to state the results *)

(** What the [done] hook makes of one entry. *)
Definition doneEntry (now : Z) (e : EntryInfo) : EntryInfo :=
  match status e with
  | Building => setLastActiveTime now (setStatus Built e)
  | _ => e
  end.

Definition isBuilding (s : State) (page : string) : bool :=
  match entries s !! page with
  | Some entryInfo => bool_decide (status entryInfo = Building)
  | None => false
  end.

(** The listener [id] belongs to one of [pages] that is [BUILDING] in [s]. *)
Definition wakes (s : State) (pages : list string) (id : nat) : bool :=
  existsb (λ page, isBuilding s page && bool_decide (id ∈ listeners page s)) pages.

(** Every listener is the callback of an existing promise, made for the page
    it listens to. *)
Definition listenersOwned (s : State) : Prop :=
  ∀ page id, id ∈ listeners page s →
    ∃ p, promises s !! id = Some p ∧ ppage p = page.

(** ** A host for closed examples *)

(** A reader for the one wire format of the pinger, [{"page":"..."}] with a
    page free of quotes, given here by its characters: the text after the
    opening brace is the property name in quotes, a colon, the page in quotes
    and the closing brace.  Every other text is refused; in particular every
    text that [JSON.parse] refuses. *)
Definition quote : string := String (ascii_of_nat 34) "".

Definition pingPrefix : string := "{" +:+ quote +:+ "page" +:+ quote +:+ ":" +:+ quote.

Definition pingSuffix : string := quote +:+ "}".

Fixpoint readPage (s : string) : option string :=
  match s with
  | EmptyString => None
  | String c rest =>
      if String.eqb s pingSuffix then Some ""
      else if Ascii.eqb c (ascii_of_nat 34) then None
      else String c <$> readPage rest
  end.

Definition readPing (message : string) : option json :=
  if String.prefix pingPrefix message
  then (λ page, JObject [("page", JString page)]) <$>
         readPage (substringFrom (String.length pingPrefix) message)
  else None.

(** The text of a ping for [page]. *)
Definition ping (page : string) : string := pingPrefix +:+ page +:+ pingSuffix.

Definition examplePlatform : Platform :=
  {| JSON_parse := readPing;
     path_join := String.concat "/";
     dirname := "/app/node_modules/next/dist/server" |}.

Definition exampleOptions : Options :=
  {| dir := "/app"; dev := true; maxInactiveAge := defaultMaxInactiveAge |}.

(** The entries, statistics and states of the examples: a page ["/a"] that has
    been asked for, then picked up by a pass, then built at time 0. *)
Definition entryOf `{Platform} (opts : Options) (pathname : string)
    (st : Status) (t : option Z) : EntryInfo :=
  {| name := path_join ["bundles"; substringFrom (String.length (dir opts)) pathname];
     entry := [ path_join [dirname; ".."; "client/webpack-hot-middleware-client"];
                path_join [dirname; ".."; "client"; "on-demand-entries-client"];
                pathname +:+ "?entry" ];
     pathname := pathname; status := st; lastActiveTime := t |}.

Definition exampleEntry : Status → option Z → EntryInfo :=
  @entryOf examplePlatform exampleOptions "/app/pages/a.js".

Definition cleanStats : Stats := {| errors := [] |}.

Definition failedStats : Stats :=
  {| errors := ["Module not found: Error: Cannot resolve module"] |}.

Definition askA : Event := EnsurePage "/a" (Some "/app/pages/a.js").

Definition addedA : State := @run examplePlatform exampleOptions [askA].

Definition buildingA : State := @run examplePlatform exampleOptions [askA; Make].

Definition builtA : State :=
  @run examplePlatform exampleOptions [askA; Make; Done cleanStats 0].

(** The page with the empty identifier, asked for and built at time 0. *)
Definition emptyPageEvents : list Event :=
  [EnsurePage "" (Some "/app/pages/index.js"); Make; Done cleanStats 0].

Definition emptyPageBuilt : State :=
  @run examplePlatform exampleOptions emptyPageEvents.

(** ** The port-discovery middleware *)

(** What a handler does to the response object [res], in order. *)
Inductive ResOp : Type :=
  | SetHeader (name value : string)     (* res.setHeader(name, value) *)
  | AssignStatus (code : Z)             (* res.status = code *)
  | EndWith (payload : json).           (* res.end(JSON.stringify(payload)) *)

(** [sendJson(res, payload)] *)
Definition sendJson (payload : json) : list ResOp :=
  [SetHeader "Content-Type" "application/json"; AssignStatus 200; EndWith payload].

(** How the middleware ends: by [next()], or by answering on [res]. *)
Inductive Handling : Type :=
  | CallNext
  | Reply (ops : list ResOp).

Definition pingerPortPath : string := "/on-demand-entries-pinger-port".

(** [middleware()] applied to a request with [req.url = url]; the pattern
    [/^\/on-demand-entries-pinger-port/] is anchored at the start only.
    [port] is [server.address().port]. *)
Definition middleware (port : Z) (url : string) : Handling :=
  if String.prefix pingerPortPath url
  then Reply (sendJson (JObject [("port", JNumber port)]))
  else CallNext.

(** ** Counting effects *)

Definition isTouch (e : Effect) : bool :=
  match e with ScheduleTouch _ => true | _ => false end.

(** How many touches of an artifact have been scheduled. *)
Definition touches (effs : list Effect) : nat := length (List.filter isTouch effs).

(** ** A host that reads some more texts *)

(** As [readPing], and the texts [null], [{}] and [7] besides. *)
Definition readLiteral (message : string) : option json :=
  if String.eqb message "null" then Some JNull
  else if String.eqb message "{}" then Some (JObject [])
  else if String.eqb message "7" then Some (JNumber 7)
  else readPing message.

Definition literalPlatform : Platform :=
  {| JSON_parse := readLiteral;
     path_join := String.concat "/";
     dirname := "/app/node_modules/next/dist/server" |}.

(** A second page, ["/b"], asked for and built together with ["/a"]. *)
Definition askB : Event := EnsurePage "/b" (Some "/app/pages/b.js").

Definition eventsAB : list Event := [askA; askB; Make; Done cleanStats 0].



(** ** Names found along the prototype chain *)

(** The names under which [entries[name]] can be a value although [entries]
    has no such key: the properties that every object literal inherits, and
    the properties of an entry object, which an assignment to [__proto__]
    puts into the chain. *)
Definition inheritedNames : list string :=
  [ "__proto__"; "constructor"; "hasOwnProperty"; "isPrototypeOf";
    "propertyIsEnumerable"; "toLocaleString"; "toString"; "valueOf";
    "__defineGetter__"; "__defineSetter__"; "__lookupGetter__";
    "__lookupSetter__";
    "name"; "entry"; "pathname"; "status"; "lastActiveTime" ].

Definition inherited (name : string) : bool := bool_decide (name ∈ inheritedNames).

(** A call of [ensurePage] of the run is made for the page [name]. *)
Definition asksFor (name : string) (evs : list Event) : bool :=
  existsb (λ ev, match ev with
                 | EnsurePage raw _ => String.eqb (normalizePage raw) name
                 | _ => false
                 end) evs.

Section NormalizePage.

Lemma string_length_app (s t : string) :
  String.length (s +:+ t) = (String.length s + String.length t)%nat.
Proof. induction s as [|c s IH]; simpl; [done|by f_equal]. Qed.

Lemma normalizePage_suffix (prefix : string) :
  normalizePage (prefix +:+ "/index") = prefix +:+ "/".
Proof.
  induction prefix as [|c prefix IH]; [reflexivity|].
  change (String c prefix +:+ "/index") with (String c (prefix +:+ "/index")).
  cbn [normalizePage]. rewrite IH.
  destruct (String.eqb_spec (String c (prefix +:+ "/index")) "/index") as [E|_];
    [|reflexivity].
  exfalso. apply (f_equal String.length) in E. cbn in E.
  rewrite string_length_app in E. cbn in E. lia.
Qed.

Lemma normalizePage_slashFree (page t : string) :
  slashFree t = true → normalizePage page = t → page = t.
Proof.
  revert t. induction page as [|c rest IH]; intros t Ht; [done|].
  cbn [normalizePage].
  destruct (String.eqb_spec (String c rest) "/index") as [_|_].
  - intros <-. discriminate Ht.
  - destruct t as [|d t]; [done|]. intros [= -> E].
    cbn in Ht. apply andb_prop in Ht as [_ Ht]. f_equal. by apply IH.
Qed.

Lemma normalizePage_idempotent (page : string) :
  normalizePage (normalizePage page) = normalizePage page.
Proof.
  induction page as [|c rest IH]; [reflexivity|].
  cbn [normalizePage].
  destruct (String.eqb_spec (String c rest) "/index") as [_|Hne]; [reflexivity|].
  cbn [normalizePage]. rewrite IH.
  destruct (String.eqb_spec (String c (normalizePage rest)) "/index") as [E|_];
    [|reflexivity].
  exfalso. apply Hne. injection E as -> E.
  by rewrite (normalizePage_slashFree rest "index" eq_refl E).
Qed.

(** A page that does not end in ["/index"] is its own normal form. *)
Lemma normalizePage_other (page : string) :
  (∀ prefix, page ≠ prefix +:+ "/index") → normalizePage page = page.
Proof.
  induction page as [|c rest IH]; intros Hno; [reflexivity|].
  cbn [normalizePage].
  destruct (String.eqb_spec (String c rest) "/index") as [E|_].
  - exfalso. apply (Hno ""). by rewrite E.
  - f_equal. apply IH. intros prefix ->. by apply (Hno (String c prefix)).
Qed.

End NormalizePage.

(** ** Promises, listeners and the emitter *)

Section Emitter.

Lemma settle_ppage outcome p : ppage (settle outcome p) = ppage p.
Proof. unfold settle. by destruct (pstate p). Qed.

Lemma settle_settled outcome p :
  pstate p ≠ Pending → settle outcome p = p.
Proof. unfold settle. by destruct (pstate p). Qed.

Lemma settle_pending outcome p :
  pstate p = Pending → pstate (settle outcome p) = outcome.
Proof. unfold settle. by intros ->. Qed.

Lemma settle_idemp outcome p :
  outcome ≠ Pending → settle outcome (settle outcome p) = settle outcome p.
Proof.
  intros Hne. destruct (pstate p) eqn:E.
  - apply settle_settled. rewrite settle_pending; done.
  - by rewrite !(settle_settled outcome p) by (by rewrite E).
  - by rewrite !(settle_settled outcome p) by (by rewrite E).
Qed.

Lemma settlement_settled err : settlement err ≠ Pending.
Proof. by destruct err. Qed.

Lemma processCallback_promises id err s :
  promises (processCallback id err s)
    = alter (settle (settlement err)) id (promises s).
Proof. by destruct err. Qed.

Lemma callAll_frame page err ids s :
  entries (callAll page err ids s) = entries s
  ∧ lastAccessPages (callAll page err ids s) = lastAccessPages s
  ∧ doneCallbacks (callAll page err ids s) = doneCallbacks s
  ∧ touchedAPage (callAll page err ids s) = touchedAPage s.
Proof.
  revert s. induction ids as [|id ids IH]; intros s; [done|].
  destruct (IH (processCallback id err (perform (Notify page id) s)))
    as (E1 & E2 & E3 & E4).
  unfold callAll in *. cbn [foldl]. rewrite E1, E2, E3, E4.
  by destruct err, s.
Qed.

Lemma callAll_effects page err ids s :
  effects (callAll page err ids s) = reverse (Notify page <$> ids) ++ effects s.
Proof.
  revert s. induction ids as [|id ids IH]; intros s; [done|].
  unfold callAll; cbn [foldl]. unfold callAll in IH. rewrite IH.
  rewrite fmap_cons, reverse_cons, <-app_assoc. by destruct err.
Qed.

Lemma callAll_promises_at page err ids s i :
  promises (callAll page err ids s) !! i =
    if decide (i ∈ ids) then settle (settlement err) <$> promises s !! i
    else promises s !! i.
Proof.
  revert s. induction ids as [|id ids IH]; intros s.
  - cbn. by rewrite decide_False by apply not_elem_of_nil.
  - unfold callAll; cbn [foldl]. unfold callAll in IH. rewrite IH.
    rewrite processCallback_promises. cbn [perform promises].
    destruct (decide (i = id)) as [->|Hne].
    + rewrite list_lookup_alter_eq.
      rewrite (decide_True (P := id ∈ id :: ids)) by (apply elem_of_cons; by left).
      destruct (decide (id ∈ ids)); [|done].
      destruct (promises s !! id) as [p|]; [|done].
      cbn. by rewrite settle_idemp by apply settlement_settled.
    + rewrite list_lookup_alter_ne by done.
      destruct (decide (i ∈ ids)) as [Hin|Hnin],
               (decide (i ∈ id :: ids)) as [Hin'|Hnin']; try done.
      * exfalso. apply Hnin'. apply elem_of_cons. by right.
      * exfalso. apply elem_of_cons in Hin' as [?|?]; done.
Qed.

Lemma callAll_promises page ids s i :
  promises (callAll page None ids s) !! i =
    if decide (i ∈ ids) then settle Resolved <$> promises s !! i
    else promises s !! i.
Proof. apply callAll_promises_at. Qed.

Lemma callAll_length page err ids s :
  length (promises (callAll page err ids s)) = length (promises s).
Proof.
  revert s. induction ids as [|id ids IH]; intros s; [done|].
  unfold callAll; cbn [foldl]. unfold callAll in IH. rewrite IH.
  rewrite processCallback_promises. cbn. by rewrite length_alter.
Qed.

End Emitter.

(** ** The keys of the registry *)

Section Keys.

Lemma elem_of_keys (m : gmap string EntryInfo) page :
  page ∈ keys m ↔ is_Some (m !! page).
Proof.
  unfold keys. rewrite list_elem_of_fmap. split.
  - intros [[k e] [-> Hin]]. apply elem_of_map_to_list in Hin. by exists e.
  - intros [e He]. exists (page, e). split; [done|]. by apply elem_of_map_to_list.
Qed.

Lemma NoDup_keys (m : gmap string EntryInfo) : NoDup (keys m).
Proof. apply NoDup_fst_map_to_list. Qed.

Lemma lookup_foldl_delete (m : gmap string EntryInfo) (pages : list string) page :
  foldl (λ m page, delete page m) m pages !! page =
    if decide (page ∈ pages) then None else m !! page.
Proof.
  revert m. induction pages as [|a pages IH]; intros m; cbn [foldl].
  - by rewrite decide_False by apply not_elem_of_nil.
  - rewrite IH. destruct (decide (page ∈ pages)) as [Hin|Hnin].
    + by rewrite decide_True by (apply elem_of_cons; by right).
    + destruct (decide (page = a)) as [->|Hne].
      * rewrite lookup_delete_eq.
        by rewrite decide_True by (apply elem_of_cons; by left).
      * rewrite lookup_delete_ne by done.
        rewrite decide_False; [done|]. rewrite elem_of_cons. by intros [?|?].
Qed.

End Keys.

(** ** The [make] hook *)

Section Make.

Lemma setStatus_idemp st e : setStatus st (setStatus st e) = setStatus st e.
Proof. reflexivity. Qed.

Lemma makePage_entries s a page :
  entries (makePage s a) !! page =
    if decide (page = a) then setStatus Building <$> entries s !! page
    else entries s !! page.
Proof.
  unfold makePage. destruct (decide (page = a)) as [->|Hne].
  - destruct (entries s !! a) as [e|] eqn:E; cbn; [|by rewrite E].
    by rewrite lookup_insert_eq.
  - destruct (entries s !! a) as [e|] eqn:E; cbn; [|done].
    by rewrite lookup_insert_ne.
Qed.

Lemma makePage_frame s a :
  lastAccessPages (makePage s a) = lastAccessPages s
  ∧ doneCallbacks (makePage s a) = doneCallbacks s
  ∧ touchedAPage (makePage s a) = touchedAPage s
  ∧ promises (makePage s a) = promises s.
Proof. unfold makePage. by destruct (entries s !! a). Qed.

Lemma foldl_makePage_entries pages s page :
  entries (foldl makePage s pages) !! page =
    if decide (page ∈ pages) then setStatus Building <$> entries s !! page
    else entries s !! page.
Proof.
  revert s. induction pages as [|a pages IH]; intros s; cbn [foldl].
  - by rewrite decide_False by apply not_elem_of_nil.
  - rewrite IH, makePage_entries.
    destruct (decide (page = a)) as [->|Hne].
    + rewrite (decide_True (P := a ∈ a :: pages)) by (apply elem_of_cons; by left).
      destruct (decide (a ∈ pages)); [|done]. by destruct (entries s !! a).
    + destruct (decide (page ∈ pages)) as [Hin|Hnin],
               (decide (page ∈ a :: pages)) as [Hin'|Hnin']; try done.
      * exfalso. apply Hnin'. apply elem_of_cons. by right.
      * exfalso. apply elem_of_cons in Hin' as [?|?]; done.
Qed.

Lemma foldl_makePage_frame pages s :
  lastAccessPages (foldl makePage s pages) = lastAccessPages s
  ∧ doneCallbacks (foldl makePage s pages) = doneCallbacks s
  ∧ touchedAPage (foldl makePage s pages) = touchedAPage s
  ∧ promises (foldl makePage s pages) = promises s.
Proof.
  revert s. induction pages as [|a pages IH]; intros s; cbn [foldl]; [done|].
  destruct (IH (makePage s a)) as (-> & -> & -> & ->). apply makePage_frame.
Qed.

(** The hook sets every entry of the registry to [BUILDING]. *)
Lemma onMake_entries s page :
  entries (onMake s) !! page = setStatus Building <$> entries s !! page.
Proof.
  unfold onMake. rewrite foldl_makePage_entries.
  destruct (decide (page ∈ keys (entries s))) as [Hin|Hnin]; [done|].
  rewrite elem_of_keys in Hnin. apply eq_None_not_Some in Hnin. by rewrite Hnin.
Qed.

Lemma onMake_frame s :
  lastAccessPages (onMake s) = lastAccessPages s
  ∧ doneCallbacks (onMake s) = doneCallbacks s
  ∧ touchedAPage (onMake s) = touchedAPage s
  ∧ promises (onMake s) = promises s.
Proof. apply foldl_makePage_frame. Qed.

End Make.

(** ** The [done] hook *)

Section Done.

Lemma doneEntry_idemp now e : doneEntry now (doneEntry now e) = doneEntry now e.
Proof. unfold doneEntry. by destruct (status e) eqn:E; cbn; rewrite ?E. Qed.

Lemma doneEntry_status now e :
  status (doneEntry now e) = match status e with Building => Built | st => st end.
Proof. unfold doneEntry. by destruct (status e) eqn:E; cbn; rewrite ?E. Qed.

Lemma donePage_entries now s a page :
  entries (donePage now s a) !! page =
    if decide (page = a) then doneEntry now <$> entries s !! page
    else entries s !! page.
Proof.
  unfold donePage, doneEntry.
  destruct (entries s !! a) as [e|] eqn:E.
  - destruct (status e) eqn:Est.
    + case_decide; subst; by rewrite ?E; cbn; rewrite ?Est.
    + unfold emit. rewrite (proj1 (callAll_frame _ _ _ _)). cbn [entries withEntries].
      destruct (touchedAPage s); cbn [entries withTouchedAPage perform];
        (case_decide; subst;
         [rewrite lookup_insert_eq, E; cbn; by rewrite Est
         |by rewrite lookup_insert_ne]).
    + case_decide; subst; by rewrite ?E; cbn; rewrite ?Est.
  - case_decide; subst; by rewrite ?E.
Qed.

Lemma donePage_frame now s a :
  lastAccessPages (donePage now s a) = lastAccessPages s
  ∧ doneCallbacks (donePage now s a) = doneCallbacks s.
Proof.
  unfold donePage.
  destruct (entries s !! a) as [e|]; [|done].
  destruct (status e); [done| |done].
  unfold emit. split.
  - rewrite (proj1 (proj2 (callAll_frame _ _ _ _))). by destruct (touchedAPage s).
  - rewrite (proj1 (proj2 (proj2 (callAll_frame _ _ _ _)))).
    by destruct (touchedAPage s).
Qed.

Lemma donePage_listeners now s a page :
  listeners page (donePage now s a) = listeners page s.
Proof. unfold listeners. by rewrite (proj2 (donePage_frame now s a)). Qed.

Lemma donePage_promises now s a i :
  promises (donePage now s a) !! i =
    if isBuilding s a && bool_decide (i ∈ listeners a s)
    then settle Resolved <$> promises s !! i
    else promises s !! i.
Proof.
  unfold donePage, isBuilding.
  destruct (entries s !! a) as [e|]; [|done].
  destruct (status e) eqn:Est; [done| |done].
  rewrite bool_decide_eq_true_2 by done. cbn [andb].
  unfold emit. rewrite callAll_promises.
  assert (∀ s', listeners a (withEntries
            (<[a:=setLastActiveTime now (setStatus Built e)]> (entries s')) s')
          = listeners a s') as El by done.
  rewrite El.
  destruct (touchedAPage s); cbn [listeners promises withEntries withTouchedAPage
    perform doneCallbacks]; fold (listeners a s); by case_bool_decide; case_decide.
Qed.

Lemma donePage_length now s a :
  length (promises (donePage now s a)) = length (promises s).
Proof.
  unfold donePage.
  destruct (entries s !! a) as [e|]; [|done].
  destruct (status e); [done| |done].
  unfold emit. rewrite callAll_length. by destruct (touchedAPage s).
Qed.

(** What one iteration adds to the effects: the touch, when it is the first,
    and the calls of the listeners of the page. *)
Lemma donePage_effects now s a :
  ∃ new, effects (donePage now s a) = new ++ effects s
    ∧ (isBuilding s a = true → ∀ i, i ∈ listeners a s → Notify a i ∈ new).
Proof.
  unfold donePage, isBuilding.
  destruct (entries s !! a) as [e|]; [|by exists []].
  destruct (status e) eqn:Est; [by exists []| |by exists []].
  unfold emit. rewrite callAll_effects.
  assert (∀ s', listeners a (withEntries
            (<[a:=setLastActiveTime now (setStatus Built e)]> (entries s')) s')
          = listeners a s') as El by done.
  rewrite El.
  destruct (touchedAPage s); cbn [listeners effects withEntries withTouchedAPage
    perform doneCallbacks]; fold (listeners a s).
  - exists (reverse (Notify a <$> listeners a s)). split; [done|].
    intros _ i Hi. rewrite elem_of_reverse. by apply list_elem_of_fmap_2.
  - exists (reverse (Notify a <$> listeners a s) ++ [ScheduleTouch (pathname e)]).
    split; [by rewrite <-app_assoc|].
    intros _ i Hi. apply elem_of_app. left.
    rewrite elem_of_reverse. by apply list_elem_of_fmap_2.
Qed.

End Done.

Section DoneLoop.

Context (now : Z).

Lemma foldl_donePage_frame pages s :
  lastAccessPages (foldl (donePage now) s pages) = lastAccessPages s
  ∧ doneCallbacks (foldl (donePage now) s pages) = doneCallbacks s
  ∧ length (promises (foldl (donePage now) s pages)) = length (promises s).
Proof.
  revert s. induction pages as [|a pages IH]; intros s; cbn [foldl]; [done|].
  destruct (IH (donePage now s a)) as (-> & -> & ->).
  destruct (donePage_frame now s a) as [-> ->]. by rewrite donePage_length.
Qed.

Lemma foldl_donePage_entries pages s page :
  entries (foldl (donePage now) s pages) !! page =
    if decide (page ∈ pages) then doneEntry now <$> entries s !! page
    else entries s !! page.
Proof.
  revert s. induction pages as [|a pages IH]; intros s; cbn [foldl].
  - by rewrite decide_False by apply not_elem_of_nil.
  - rewrite IH, donePage_entries.
    destruct (decide (page = a)) as [->|Hne].
    + rewrite (decide_True (P := a ∈ a :: pages)) by (apply elem_of_cons; by left).
      destruct (decide (a ∈ pages)); [|done].
      destruct (entries s !! a); [|done]. cbn. by rewrite doneEntry_idemp.
    + destruct (decide (page ∈ pages)) as [Hin|Hnin],
               (decide (page ∈ a :: pages)) as [Hin'|Hnin']; try done.
      * exfalso. apply Hnin'. apply elem_of_cons. by right.
      * exfalso. apply elem_of_cons in Hin' as [?|?]; done.
Qed.

Lemma isBuilding_donePage_ne s a page :
  page ≠ a → isBuilding (donePage now s a) page = isBuilding s page.
Proof.
  intros Hne. unfold isBuilding. by rewrite donePage_entries, decide_False.
Qed.

Lemma wakes_donePage s a pages i :
  a ∉ pages → wakes (donePage now s a) pages i = wakes s pages i.
Proof.
  intros Hnin. unfold wakes. induction pages as [|b pages IH]; [done|].
  apply not_elem_of_cons in Hnin as [Hne Hnin]. cbn [existsb].
  rewrite IH by done.
  by rewrite isBuilding_donePage_ne, donePage_listeners.
Qed.

Lemma foldl_donePage_promises pages s i :
  NoDup pages →
  promises (foldl (donePage now) s pages) !! i =
    if wakes s pages i then settle Resolved <$> promises s !! i
    else promises s !! i.
Proof.
  intros Hnd. revert s.
  induction Hnd as [|a pages Hnin Hnd IH]; intros s; cbn [foldl]; [done|].
  rewrite IH, wakes_donePage, donePage_promises by done.
  change (wakes s (a :: pages) i)
    with (isBuilding s a && bool_decide (i ∈ listeners a s) || wakes s pages i).
  destruct (isBuilding s a && bool_decide (i ∈ listeners a s)),
           (wakes s pages i); cbn [orb]; try done.
  destruct (promises s !! i); [|done]. cbn. by rewrite settle_idemp.
Qed.

Lemma foldl_donePage_effects pages s :
  NoDup pages →
  ∃ new, effects (foldl (donePage now) s pages) = new ++ effects s
    ∧ ∀ page i, page ∈ pages → isBuilding s page = true →
        i ∈ listeners page s → Notify page i ∈ new.
Proof.
  intros Hnd. revert s.
  induction Hnd as [|a pages Hnin Hnd IH]; intros s; cbn [foldl].
  - exists []. split; [done|]. intros page i Hin. by apply elem_of_nil in Hin.
  - destruct (IH (donePage now s a)) as (new1 & -> & H1).
    destruct (donePage_effects now s a) as (new0 & -> & H0).
    exists (new1 ++ new0). split; [by rewrite app_assoc|].
    intros page i Hin Hb Hi. apply elem_of_app.
    apply elem_of_cons in Hin as [->|Hin].
    + right. by apply H0.
    + left. assert (page ≠ a) by (by intros ->).
      apply H1; [done| |].
      * by rewrite isBuilding_donePage_ne.
      * by rewrite donePage_listeners.
Qed.

End DoneLoop.

Section OnDone.

Lemma onDone_entries stats now s page :
  entries (onDone stats now s) !! page = doneEntry now <$> entries s !! page.
Proof.
  unfold onDone. rewrite foldl_donePage_entries.
  destruct (decide (page ∈ keys (entries s))) as [Hin|Hnin]; [done|].
  rewrite elem_of_keys in Hnin. apply eq_None_not_Some in Hnin. by rewrite Hnin.
Qed.

Lemma onDone_frame stats now s :
  lastAccessPages (onDone stats now s) = lastAccessPages s
  ∧ doneCallbacks (onDone stats now s) = doneCallbacks s
  ∧ length (promises (onDone stats now s)) = length (promises s).
Proof. apply foldl_donePage_frame. Qed.

Lemma onDone_promises stats now s i :
  promises (onDone stats now s) !! i =
    if wakes s (keys (entries s)) i then settle Resolved <$> promises s !! i
    else promises s !! i.
Proof. apply foldl_donePage_promises, NoDup_keys. Qed.

(** A listener is woken by the hook exactly when its page is [BUILDING]. *)
Lemma wakes_keys s i :
  wakes s (keys (entries s)) i = true ↔
    ∃ page e, entries s !! page = Some e ∧ status e = Building
              ∧ i ∈ listeners page s.
Proof.
  unfold wakes. rewrite existsb_exists. split.
  - intros (page & _ & Hb). apply andb_prop in Hb as [Hb Hi].
    apply bool_decide_eq_true in Hi. unfold isBuilding in Hb.
    destruct (entries s !! page) as [e|] eqn:E; [|done].
    apply bool_decide_eq_true in Hb. by exists page, e.
  - intros (page & e & E & Est & Hi). exists page. split.
    + apply list_elem_of_In, elem_of_keys. by exists e.
    + unfold isBuilding. rewrite E.
      by rewrite !bool_decide_eq_true_2.
Qed.

Lemma onDone_effects stats now s :
  ∃ new, effects (onDone stats now s) = new ++ effects s
    ∧ ∀ page e i, entries s !! page = Some e → status e = Building →
        i ∈ listeners page s → Notify page i ∈ new.
Proof.
  destruct (foldl_donePage_effects now (keys (entries s)) s (NoDup_keys _))
    as (new & E & Hnew).
  exists new. split; [done|]. intros page e i He Hst Hi.
  apply Hnew; [apply elem_of_keys; by exists e| |done].
  unfold isBuilding. rewrite He. by apply bool_decide_eq_true_2.
Qed.

End OnDone.

(** ** The sweep *)

Section Dispose.

Lemma inactive_true (m : gmap string EntryInfo) (recent : list string)
    (maxAge now : Z) page :
  inactive m recent maxAge now page = true ↔
    ∃ e t, m !! page = Some e ∧ status e = Built
           ∧ recent !! 0%nat ≠ Some page
           ∧ lastActiveTime e = Some t ∧ now - t > maxAge.
Proof.
  unfold inactive. split.
  - destruct (m !! page) as [e|]; [|done].
    destruct (status e) eqn:Est; [done|done|].
    case_decide; [done|].
    destruct (lastActiveTime e) as [t|] eqn:Et; [|done].
    intros Hgt%bool_decide_eq_true. by exists e, t.
  - intros (e & t & -> & -> & Hrecent & -> & Hgt).
    rewrite decide_False by done. by apply bool_decide_eq_true_2.
Qed.

Lemma elem_of_disposingPages (m : gmap string EntryInfo) recent maxAge now page :
  page ∈ List.filter (inactive m recent maxAge now) (keys m) ↔
    inactive m recent maxAge now page = true.
Proof.
  rewrite list_elem_of_In, filter_In, <-list_elem_of_In, elem_of_keys.
  split; [by intros [_ ?]|]. intros Hi. split; [|done].
  apply inactive_true in Hi as (e & _ & -> & _). by exists e.
Qed.

Lemma dispose_entries maxAge now s page :
  entries (disposeInactiveEntries maxAge now s) !! page =
    if inactive (entries s) (lastAccessPages s) maxAge now page then None
    else entries s !! page.
Proof.
  unfold disposeInactiveEntries.
  pose proof (elem_of_disposingPages (entries s) (lastAccessPages s) maxAge now page)
    as Hin.
  destruct (List.filter _ (keys (entries s))) as [|a pages] eqn:E.
  - destruct (inactive _ _ _ _ page); [|done].
    exfalso. by apply (not_elem_of_nil page), Hin.
  - cbn [entries perform withEntries]. rewrite lookup_foldl_delete.
    destruct (inactive _ _ _ _ page).
    + rewrite decide_True; [done|]. by apply Hin.
    + rewrite decide_False; [done|]. intros H%Hin. done.
Qed.

Lemma dispose_frame maxAge now s :
  lastAccessPages (disposeInactiveEntries maxAge now s) = lastAccessPages s
  ∧ doneCallbacks (disposeInactiveEntries maxAge now s) = doneCallbacks s
  ∧ touchedAPage (disposeInactiveEntries maxAge now s) = touchedAPage s
  ∧ promises (disposeInactiveEntries maxAge now s) = promises s.
Proof.
  unfold disposeInactiveEntries. by destruct (List.filter _ _).
Qed.

End Dispose.

(** ** ensurePage and the ping handler *)

Section Requests.

Context `{Platform} (opts : Options).

Lemma on_frame page id s :
  entries (on page id s) = entries s
  ∧ lastAccessPages (on page id s) = lastAccessPages s
  ∧ touchedAPage (on page id s) = touchedAPage s.
Proof.
  unfold on, emit. cbn [entries lastAccessPages touchedAPage withDoneCallbacks].
  by destruct (callAll_frame "newListener" (announcement page)
                 (listeners "newListener" s) s) as (-> & -> & _ & ->).
Qed.

Lemma listeners_on page id s page' :
  listeners page' (on page id s) =
    if decide (page' = page) then listeners page s ++ [id] else listeners page' s.
Proof.
  assert (∀ q, listeners q (emit "newListener" (announcement page) s)
               = listeners q s) as Hq.
  { intros q. unfold listeners, emit.
    by rewrite (proj1 (proj2 (proj2 (callAll_frame _ _ _ _)))). }
  unfold listeners at 1, on. cbn [doneCallbacks withDoneCallbacks].
  case_decide; subst.
  - by rewrite lookup_insert_eq, Hq.
  - rewrite lookup_insert_ne by done. apply Hq.
Qed.

(** What the registration of a listener does to the promises: it settles
    those of the listeners of the name [newListener]. *)
Lemma on_promises_at page id s i :
  promises (on page id s) !! i =
    if decide (i ∈ listeners "newListener" s)
    then settle (settlement (announcement page)) <$> promises s !! i
    else promises s !! i.
Proof. unfold on, emit. cbn [promises withDoneCallbacks]. apply callAll_promises_at. Qed.

Lemma on_length page id s : length (promises (on page id s)) = length (promises s).
Proof. unfold on, emit. cbn [promises withDoneCallbacks]. apply callAll_length. Qed.

Lemma on_effects page id s :
  effects (on page id s)
    = reverse (Notify "newListener" <$> listeners "newListener" s) ++ effects s.
Proof. unfold on, emit. cbn [effects withDoneCallbacks]. apply callAll_effects. Qed.

Lemma register_entries page pathname id s :
  entries (register opts page pathname id s) =
    <[page := {| name := path_join ["bundles";
                    substringFrom (String.length (dir opts)) pathname];
                 entry := [ path_join [dirname; ".."; "client/webpack-hot-middleware-client"];
                            path_join [dirname; ".."; "client"; "on-demand-entries-client"];
                            pathname +:+ "?entry" ];
                 pathname := pathname; status := Added;
                 lastActiveTime := None |}]> (entries s).
Proof.
  unfold register. cbn [entries perform]. by rewrite (proj1 (on_frame _ _ _)).
Qed.

Lemma register_frame page pathname id s :
  lastAccessPages (register opts page pathname id s) = lastAccessPages s
  ∧ touchedAPage (register opts page pathname id s) = touchedAPage s.
Proof.
  unfold register. cbn [lastAccessPages touchedAPage perform].
  by destruct (on_frame page id
    (withEntries (<[page := {| name := path_join ["bundles";
                      substringFrom (String.length (dir opts)) pathname];
                   entry := [ path_join [dirname; ".."; "client/webpack-hot-middleware-client"];
                              path_join [dirname; ".."; "client"; "on-demand-entries-client"];
                              pathname +:+ "?entry" ];
                   pathname := pathname; status := Added;
                   lastActiveTime := None |}]>
                   (entries (perform (ConsoleLog ("> Building page: " +:+ page)) s)))
       (perform (ConsoleLog ("> Building page: " +:+ page)) s))) as (_ & -> & ->).
Qed.

Lemma register_listeners_on page pathname id s page' :
  listeners page' (register opts page pathname id s) = listeners page' (on page id s).
Proof.
  unfold register. change (listeners page' (perform Invalidate ?x)) with (listeners page' x).
  by rewrite !listeners_on.
Qed.

Lemma register_promises_at page pathname id s i :
  promises (register opts page pathname id s) !! i = promises (on page id s) !! i.
Proof.
  unfold register. cbn [promises perform]. by rewrite !on_promises_at.
Qed.

Lemma register_length page pathname id s :
  length (promises (register opts page pathname id s)) = length (promises s).
Proof. unfold register. cbn [promises perform]. by rewrite on_length. Qed.

Lemma register_effects page pathname id s :
  effects (register opts page pathname id s)
    = Invalidate
        :: reverse (Notify "newListener" <$> listeners "newListener" s)
        ++ ConsoleLog ("> Building page: " +:+ page) :: effects s.
Proof. unfold register. cbn [effects perform]. by rewrite on_effects. Qed.

(** The four ways of a call of [ensurePage]. *)
Lemma ensurePage_cases raw resolved s :
  (resolved = None
   ∧ ensurePage opts raw resolved s
       = newPromise (normalizePage raw) (Rejected ResolutionError) s)
  ∨ (∃ file e, resolved = Some file
       ∧ entries s !! normalizePage raw = Some e ∧ status e = Built
       ∧ ensurePage opts raw resolved s = newPromise (normalizePage raw) Resolved s)
  ∨ (∃ file e, resolved = Some file
       ∧ entries s !! normalizePage raw = Some e ∧ status e = Building
       ∧ ensurePage opts raw resolved s
           = on (normalizePage raw) (length (promises s))
                (newPromise (normalizePage raw) Pending s))
  ∨ (∃ file, resolved = Some file
       ∧ (entries s !! normalizePage raw = None
          ∨ ∃ e, entries s !! normalizePage raw = Some e ∧ status e = Added)
       ∧ ensurePage opts raw resolved s
           = register opts (normalizePage raw) file (length (promises s))
                      (newPromise (normalizePage raw) Pending s)).
Proof.
  unfold ensurePage. destruct resolved as [file|]; [|by left].
  destruct (entries s !! normalizePage raw) as [e|] eqn:He.
  - destruct (status e) eqn:Est.
    + do 3 right. exists file. split_and!; [done| |done]. right. by exists e.
    + do 2 right. left. by exists file, e.
    + right. left. by exists file, e.
  - do 3 right. exists file. split_and!; [done|by left|done].
Qed.

(** The promises after a call: those of before, of which the registration
    of the caller may have settled the listeners of the name [newListener],
    and the promise of the call. *)
Lemma ensurePage_promises_at raw resolved s :
  ∃ st ids,
    (∀ i, promises (ensurePage opts raw resolved s) !! i =
            if decide (i ∈ ids)
            then settle (settlement (announcement (normalizePage raw)))
                   <$> (promises s ++ [{| ppage := normalizePage raw; pstate := st |}]) !! i
            else (promises s ++ [{| ppage := normalizePage raw; pstate := st |}]) !! i)
    ∧ (ids = [] ∨ (ids = listeners "newListener" s ∧ st = Pending))
    ∧ (st = Resolved →
         ∃ e, entries s !! normalizePage raw = Some e ∧ status e = Built
              ∧ is_Some resolved)
    ∧ (∀ err, st = Rejected err → resolved = None ∧ err = ResolutionError).
Proof.
  destruct (ensurePage_cases raw resolved s)
    as [[-> ->]|[(file & e & -> & He & Hst & ->)|[(file & e & -> & He & Hst & ->)
       |(file & -> & Hold & ->)]]].
  - exists (Rejected ResolutionError), []. split_and!; [|by left|done|].
    + intros i. by rewrite decide_False by apply not_elem_of_nil.
    + by intros err [= <-].
  - exists Resolved, []. split_and!; [|by left| |done].
    + intros i. by rewrite decide_False by apply not_elem_of_nil.
    + intros _. by exists e.
  - exists Pending, (listeners "newListener" s). split_and!; [|by right|done|done].
    intros i. by rewrite on_promises_at.
  - exists Pending, (listeners "newListener" s). split_and!; [|by right|done|done].
    intros i. by rewrite register_promises_at, on_promises_at.
Qed.

Lemma ensurePage_length raw resolved s :
  length (promises (ensurePage opts raw resolved s)) = S (length (promises s)).
Proof.
  destruct (ensurePage_cases raw resolved s)
    as [[_ ->]|[(file & e & _ & _ & _ & ->)|[(file & e & _ & _ & _ & ->)
       |(file & _ & _ & ->)]]];
    rewrite ?register_length, ?on_length; cbn; rewrite length_app; cbn; lia.
Qed.

Lemma ensurePage_entries page resolved s page' :
  page' ≠ normalizePage page →
  entries (ensurePage opts page resolved s) !! page' = entries s !! page'.
Proof.
  intros Hne.
  destruct (ensurePage_cases page resolved s)
    as [[_ ->]|[(file & e & _ & _ & _ & ->)|[(file & e & _ & _ & _ & ->)
       |(file & _ & _ & ->)]]]; [done|done| |].
  - by rewrite (proj1 (on_frame _ _ _)).
  - rewrite register_entries. by rewrite lookup_insert_ne.
Qed.

Lemma ensurePage_lastAccessPages page resolved s :
  lastAccessPages (ensurePage opts page resolved s) = lastAccessPages s.
Proof.
  destruct (ensurePage_cases page resolved s)
    as [[_ ->]|[(file & e & _ & _ & _ & ->)|[(file & e & _ & _ & _ & ->)
       |(file & _ & _ & ->)]]]; [done|done| |].
  - by rewrite (proj1 (proj2 (on_frame _ _ _))).
  - by rewrite (proj1 (register_frame _ _ _ _)).
Qed.

Lemma ensurePage_touchedAPage page resolved s :
  touchedAPage (ensurePage opts page resolved s) = touchedAPage s.
Proof.
  destruct (ensurePage_cases page resolved s)
    as [[_ ->]|[(file & e & _ & _ & _ & ->)|[(file & e & _ & _ & _ & ->)
       |(file & _ & _ & ->)]]]; [done|done| |].
  - by rewrite (proj2 (proj2 (on_frame _ _ _))).
  - by rewrite (proj2 (register_frame _ _ _ _)).
Qed.

(** The listeners after a call: the promise of the call may be appended to
    those of its page, nothing else changes. *)
Lemma ensurePage_listeners page resolved s page' :
  listeners page' (ensurePage opts page resolved s) = listeners page' s
  ∨ (page' = normalizePage page
     ∧ listeners page' (ensurePage opts page resolved s) =
         listeners page' s ++ [length (promises s)]).
Proof.
  destruct (ensurePage_cases page resolved s)
    as [[_ ->]|[(file & e & _ & _ & _ & ->)|[(file & e & _ & _ & _ & ->)
       |(file & _ & _ & ->)]]]; [by left|by left| |].
  - rewrite listeners_on. case_decide; subst; [right|left]; done.
  - rewrite register_listeners_on, listeners_on.
    case_decide; subst; [right|left]; done.
Qed.

Lemma onMessage_promises conn message now s :
  promises (stateOf (onMessage conn message now s)) = promises s
  ∧ doneCallbacks (stateOf (onMessage conn message now s)) = doneCallbacks s.
Proof.
  unfold onMessage. destruct (pingedPage message) as [e|page]; [done|].
  destruct (entries s !! page) as [e|]; [|done]. by destruct (status e).
Qed.

Lemma onMessage_entries conn message now s page :
  status <$> entries (stateOf (onMessage conn message now s)) !! page =
  status <$> entries s !! page.
Proof.
  unfold onMessage. destruct (pingedPage message) as [e|page0]; [done|].
  destruct (entries s !! page0) as [e|] eqn:E; [|done].
  destruct (status e) eqn:Est; [done|done|].
  cbn [stateOf entries withEntries withLastAccessPages].
  destruct (decide (page = page0)) as [->|Hne].
  - rewrite lookup_insert_eq, E. cbn. by rewrite Est.
  - by rewrite lookup_insert_ne.
Qed.

Lemma onMessage_lastAccessPages conn message now s :
  lastAccessPages (stateOf (onMessage conn message now s)) =
    if accepted message s
    then match pingedPage message with
         | inr page => page :: removelast (lastAccessPages s)
         | inl _ => lastAccessPages s
         end
    else lastAccessPages s.
Proof.
  unfold onMessage, accepted.
  destruct (pingedPage message) as [e|page]; [done|].
  destruct (entries s !! page) as [e|]; [|done].
  by destruct (status e).
Qed.

End Requests.

(** ** Runs and what every reachable state satisfies *)

Section Runs.

Context `{Platform} (opts : Options).

Lemma run_snoc evs ev : run opts (evs ++ [ev]) = step opts (run opts evs) ev.
Proof. unfold run. by rewrite foldl_app. Qed.

Lemma run_ind (P : State → Prop) :
  P initial → (∀ s ev, P s → P (step opts s ev)) → ∀ evs, P (run opts evs).
Proof.
  intros Hinit Hstep evs. induction evs as [|ev evs IH] using rev_ind; [done|].
  rewrite run_snoc. by apply Hstep.
Qed.

Lemma listeners_ext s s' page :
  doneCallbacks s' = doneCallbacks s → listeners page s' = listeners page s.
Proof. unfold listeners. by intros ->. Qed.

(** A step never removes a listener. *)
Lemma step_listeners s ev page :
  listeners page s `prefix_of` listeners page (step opts s ev).
Proof.
  destruct ev as [raw resolved| |stats now|conn message now|now]; cbn [step].
  - destruct (ensurePage_listeners opts raw resolved s page) as [->|[_ ->]];
      [done|by apply prefix_app_r].
  - by rewrite (listeners_ext s (onMake s)) by apply onMake_frame.
  - by rewrite (listeners_ext s (onDone stats now s)) by apply onDone_frame.
  - by rewrite (listeners_ext s (stateOf (onMessage conn message now s)))
      by apply onMessage_promises.
  - by rewrite (listeners_ext s (disposeInactiveEntries (maxInactiveAge opts) now s))
      by apply dispose_frame.
Qed.

(** A promise of before a call of [ensurePage] is the same after it, unless
    it waits as a listener of the name [newListener] and the call registers
    its caller: then it is settled with the name of the page of the call. *)
Lemma ensurePage_old raw resolved s i p :
  promises s !! i = Some p →
  promises (ensurePage opts raw resolved s) !! i = Some p
  ∨ (i ∈ listeners "newListener" s ∧ pstate p = Pending
     ∧ promises (ensurePage opts raw resolved s) !! i
         = Some {| ppage := ppage p;
                   pstate := settlement (announcement (normalizePage raw)) |}).
Proof.
  intros Hp.
  destruct (ensurePage_promises_at opts raw resolved s) as (st & ids & Hat & Hids & _).
  rewrite Hat, (lookup_app_l_Some _ _ _ _ Hp).
  destruct (decide (i ∈ ids)) as [Hin|_]; [|by left].
  destruct Hids as [->|[-> _]]; [by apply elem_of_nil in Hin|].
  cbn. unfold settle. destruct (pstate p) eqn:E; [right|by left|by left]. done.
Qed.

(** The promise of a call is the last one, made for the normal form of the
    argument. *)
Lemma ensurePage_new_ppage raw resolved s :
  ∃ p, promises (ensurePage opts raw resolved s) !! length (promises s) = Some p
       ∧ ppage p = normalizePage raw.
Proof.
  destruct (ensurePage_promises_at opts raw resolved s) as (st & ids & Hat & _).
  rewrite Hat, list_lookup_middle by done.
  case_decide; eexists; (split; [done|]); by rewrite ?settle_ppage.
Qed.


Lemma listenersOwned_fresh s page :
  listenersOwned s → length (promises s) ∉ listeners page s.
Proof.
  intros Hown Hin. destruct (Hown page _ Hin) as (p & Hp%lookup_lt_Some & _). lia.
Qed.

(** A step keeps every promise, and the page it was made for. *)
Lemma step_promise s ev i p :
  promises s !! i = Some p →
  ∃ p', promises (step opts s ev) !! i = Some p' ∧ ppage p' = ppage p.
Proof.
  intros Hp.
  destruct ev as [raw resolved| |stats now|conn message now|now]; cbn [step].
  - destruct (ensurePage_old raw resolved s i p Hp) as [->|(_ & _ & ->)];
      by eexists.
  - exists p. by rewrite (proj2 (proj2 (proj2 (onMake_frame s)))).
  - rewrite onDone_promises, Hp.
    destruct (wakes s (keys (entries s)) i); eexists; (split; [done|]);
      by rewrite ?settle_ppage.
  - exists p. by rewrite (proj1 (onMessage_promises conn message now s)).
  - exists p. by rewrite (proj2 (proj2 (proj2 (dispose_frame _ now s)))).
Qed.

Lemma step_listenersOwned s ev :
  listenersOwned s → listenersOwned (step opts s ev).
Proof.
  intros Hown page id Hid.
  assert (id ∈ listeners page s →
          ∃ p, promises (step opts s ev) !! id = Some p ∧ ppage p = page) as Hold.
  { intros (p & Hp & Hpage)%Hown.
    destruct (step_promise s ev id p Hp) as (p' & Hp' & Hpage').
    exists p'. split; [done|congruence]. }
  destruct ev as [raw resolved| |stats now|conn message now|now];
    cbn [step] in *.
  - destruct (ensurePage_listeners opts raw resolved s page) as [E|[-> E]];
      rewrite E in Hid; [by apply Hold|].
    apply elem_of_app in Hid as [Hid|Hid]; [by apply Hold|].
    apply list_elem_of_singleton in Hid as ->.
    apply ensurePage_new_ppage.
  - apply Hold.
    by rewrite (listeners_ext s (onMake s)) in Hid by apply onMake_frame.
  - apply Hold.
    by rewrite (listeners_ext s (onDone stats now s)) in Hid by apply onDone_frame.
  - apply Hold.
    by rewrite (listeners_ext s (stateOf (onMessage conn message now s))) in Hid
      by apply onMessage_promises.
  - apply Hold.
    by rewrite (listeners_ext s (disposeInactiveEntries (maxInactiveAge opts) now s))
      in Hid by apply dispose_frame.
Qed.

Lemma run_listenersOwned evs : listenersOwned (run opts evs).
Proof.
  apply run_ind; [|intros s ev; apply step_listenersOwned].
  intros page id Hid. by apply elem_of_nil in Hid.
Qed.

Lemma step_lastAccessPages_length s ev :
  length (lastAccessPages s) = 1%nat →
  length (lastAccessPages (step opts s ev)) = 1%nat.
Proof.
  intros Hlen.
  destruct ev as [raw resolved| |stats now|conn message now|now]; cbn [step].
  - by rewrite ensurePage_lastAccessPages.
  - by rewrite (proj1 (onMake_frame s)).
  - by rewrite (proj1 (onDone_frame stats now s)).
  - rewrite onMessage_lastAccessPages.
    destruct (accepted message s); [|done].
    destruct (pingedPage message) as [e|page]; [done|].
    destruct (lastAccessPages s) as [|a [|b l]]; done.
  - by rewrite (proj1 (dispose_frame _ now s)).
Qed.

Lemma noPingAccepted_lastAccessPages evs s :
  noPingAccepted opts s evs = true →
  lastAccessPages (foldl (step opts) s evs) = lastAccessPages s.
Proof.
  revert s. induction evs as [|ev evs IH]; intros s; [done|].
  cbn [noPingAccepted foldl]. intros [Hev Hrest]%andb_prop.
  rewrite IH by done.
  destruct ev as [raw resolved| |stats now|conn message now|now]; cbn [step].
  - by rewrite ensurePage_lastAccessPages.
  - by rewrite (proj1 (onMake_frame s)).
  - by rewrite (proj1 (onDone_frame stats now s)).
  - rewrite onMessage_lastAccessPages.
    by apply negb_true_iff in Hev as ->.
  - by rewrite (proj1 (dispose_frame _ now s)).
Qed.

End Runs.

Section Steps.

Context `{Platform} (opts : Options).

Lemma ensurePage_status raw resolved s e :
  entries s !! normalizePage raw = Some e →
  ∃ e', entries (ensurePage opts raw resolved s) !! normalizePage raw = Some e'
        ∧ status e' = status e.
Proof.
  intros He.
  destruct (ensurePage_cases opts raw resolved s)
    as [[_ ->]|[(file & e0 & _ & _ & _ & ->)|[(file & e0 & _ & _ & _ & ->)
       |(file & _ & Hold & ->)]]]; [by exists e|by exists e| |].
  - exists e. by rewrite (proj1 (on_frame _ _ _)).
  - rewrite register_entries, lookup_insert_eq. eexists. split; [done|].
    destruct Hold as [Hno|(e0 & He0 & Hst)]; [congruence|].
    assert (e0 = e) as -> by congruence. by rewrite Hst.
Qed.


Lemma settle_Resolved_Rejected p err :
  pstate (settle Resolved p) = Rejected err → pstate p = Rejected err.
Proof. unfold settle. destruct (pstate p) eqn:E; cbn; congruence. Qed.



Lemma run_listeners_mono evs evs' page i :
  i ∈ listeners page (run opts evs) → i ∈ listeners page (run opts (evs ++ evs')).
Proof.
  intros Hi. induction evs' as [|ev evs' IH] using rev_ind.
  - by rewrite app_nil_r.
  - rewrite app_assoc, run_snoc.
    destruct (step_listeners opts (run opts (evs ++ evs')) ev page) as [k ->].
    apply elem_of_app. by left.
Qed.

End Steps.

(** ** The properties of the specification *)

Section Claims.

Context `{Platform} (opts : Options).

(** C7.  Normalizing a page identifier twice gives what normalizing it once
    gives, for every string; ["/foo/index"] and ["/foo/"] have the same normal
    form, as have [prefix/index] and [prefix/] for every prefix, so that
    [ensurePage] on either does the same to the same entry. *)
Theorem normalizePage_idempotent_conflating :
  (∀ page, normalizePage (normalizePage page) = normalizePage page)
  ∧ normalizePage "/foo/index" = normalizePage "/foo/"
  ∧ (∀ prefix, normalizePage (prefix +:+ "/index") = normalizePage (prefix +:+ "/"))
  ∧ (∀ resolved s,
       ensurePage opts "/foo/index" resolved s = ensurePage opts "/foo/" resolved s).
Proof.
  split_and!; [apply normalizePage_idempotent|reflexivity| |reflexivity].
  intros prefix.
  by rewrite <-(normalizePage_suffix prefix), normalizePage_idempotent.
Qed.

(** C1, as the code has it.  The start of a compilation pass sets every entry
    of the registry to [Building], a [Built] one included.  Every other
    operation leaves the status of an entry where it is or moves it forward
    in [Added], [Building], [Built]; and an entry leaves the registry only by
    a sweep, and only when it is [Built]. *)
Theorem status_demoted_only_by_make s ev page e :
  entries s !! page = Some e →
  (ev = Make → status <$> entries (step opts s ev) !! page = Some Building)
  ∧ (ev ≠ Make → ∀ e', entries (step opts s ev) !! page = Some e' →
       (rank (status e) ≤ rank (status e'))%nat)
  ∧ (entries (step opts s ev) !! page = None →
       status e = Built ∧ ∃ now, ev = Sweep now).
Proof.
  intros He.
  destruct ev as [raw resolved| |stats now|conn message now|now]; cbn [step].
  - assert (∃ e', entries (ensurePage opts raw resolved s) !! page = Some e'
                  ∧ status e' = status e) as (e1 & He1 & Hst).
    { destruct (decide (page = normalizePage raw)) as [->|Hne].
      - by apply ensurePage_status.
      - exists e. by rewrite ensurePage_entries. }
    rewrite He1. split_and!; [done| |done].
    intros _ e' [= <-]. by rewrite Hst.
  - rewrite onMake_entries, He. by split_and!.
  - rewrite onDone_entries, He. split_and!; [done| |done].
    intros _ e' [= <-]. rewrite doneEntry_status. destruct (status e); cbn; lia.
  - pose proof (onMessage_entries conn message now s page) as Hst.
    rewrite He in Hst.
    destruct (entries (stateOf (onMessage conn message now s)) !! page) as [e1|];
      [|done].
    injection Hst as Hst. split_and!; [done| |done].
    intros _ e' [= <-]. by rewrite Hst.
  - rewrite dispose_entries, He.
    destruct (inactive _ _ _ _ page) eqn:Hin.
    + apply inactive_true in Hin as (e0 & t & He0 & Hst & _).
      assert (e0 = e) as -> by congruence.
      split_and!; [done|done|]. intros _. split; [done|by exists now].
    + split_and!; [done| |done]. by intros _ e' [= <-].
Qed.

(** C4.  A sweep removes an entry exactly when it is [Built], is not the page
    at the head of [lastAccessPages], and has been inactive for more than
    [maxInactiveAge]; every other entry stays as it is.  In particular an entry
    active within [maxInactiveAge], the most recently pinged page, and every
    [Added] or [Building] entry are kept. *)
Theorem dispose_removes_exactly_inactive (maxAge now : Z) s page :
  ((∃ e t, entries s !! page = Some e ∧ status e = Built
           ∧ lastAccessPages s !! 0%nat ≠ Some page
           ∧ lastActiveTime e = Some t ∧ now - t > maxAge) →
     entries (disposeInactiveEntries maxAge now s) !! page = None)
  ∧ (¬ (∃ e t, entries s !! page = Some e ∧ status e = Built
               ∧ lastAccessPages s !! 0%nat ≠ Some page
               ∧ lastActiveTime e = Some t ∧ now - t > maxAge) →
     entries (disposeInactiveEntries maxAge now s) !! page = entries s !! page)
  ∧ (∀ e t, entries s !! page = Some e → lastActiveTime e = Some t →
       now - t ≤ maxAge →
       entries (disposeInactiveEntries maxAge now s) !! page = Some e)
  ∧ (∀ e, entries s !! page = Some e → lastAccessPages s !! 0%nat = Some page →
       entries (disposeInactiveEntries maxAge now s) !! page = Some e)
  ∧ (∀ e, entries s !! page = Some e → status e ≠ Built →
       entries (disposeInactiveEntries maxAge now s) !! page = Some e).
Proof.
  rewrite dispose_entries.
  destruct (inactive _ _ _ _ page) eqn:Hin.
  - apply inactive_true in Hin as (e & t & He & Hst & Hrecent & Ht & Hage).
    split_and!; [done| | | |].
    + intros Hno. exfalso. apply Hno. by exists e, t.
    + intros e' t' He' Ht' Hle. exfalso.
      assert (e' = e) as -> by congruence. assert (t' = t) as -> by congruence. lia.
    + intros e' _ Hhead. by exfalso.
    + intros e' He' Hst'. exfalso. by assert (e' = e) as -> by congruence.
  - split_and!; [|done|done|done|done].
    intros Hyes%inactive_true. congruence.
Qed.

(** C8, as the code has it.  When [JSON.parse] refuses the text of a message
    the handler has no guard: the exception leaves the listener, before the
    registry or [lastAccessPages] is read or written and before anything is
    sent. *)
Theorem onMessage_malformed_throws conn message now s :
  JSON_parse message = None →
  onMessage conn message now s = Throw SyntaxError s.
Proof. intros Hparse. unfold onMessage, pingedPage. by rewrite Hparse. Qed.


(** C3, as the code has it.  The [done] hook does not look at the outcome of
    the pass: whether the pass has failed or not, every pending subscriber of
    every page that was [Building] is released with success, and the hook
    rejects no promise. *)
Theorem onDone_releases_with_success stats now s :
  (∀ page e i p, entries s !! page = Some e → status e = Building →
     i ∈ listeners page s → promises s !! i = Some p → pstate p = Pending →
     promises (onDone stats now s) !! i
       = Some {| ppage := ppage p; pstate := Resolved |})
  ∧ (∀ i p' err, promises (onDone stats now s) !! i = Some p' →
       pstate p' = Rejected err → promises s !! i = Some p')
  ∧ onDone stats now s = onDone {| errors := [] |} now s.
Proof.
  split_and!; [| |reflexivity].
  - intros page e i p He Hst Hi Hp Hpending.
    rewrite onDone_promises, Hp.
    rewrite (proj2 (wakes_keys s i)) by (by exists page, e).
    cbn. unfold settle. by rewrite Hpending.
  - intros i p' err. rewrite onDone_promises.
    destruct (wakes s (keys (entries s)) i); [|done].
    destruct (promises s !! i) as [p|]; [|done].
    intros [= <-] Hrej. f_equal. symmetry. apply settle_settled.
    apply settle_Resolved_Rejected in Hrej. by rewrite Hrej.
Qed.



(** C9, as the code has it.  [lastAccessPages] always holds exactly one
    element, at first the empty string.  As long as no ping has been
    accepted it is still the empty string, and the sweep then spares no entry
    of a non-empty page for being the most recent one: such an entry is
    removed as soon as it is [Built] and inactive for more than
    [maxInactiveAge]. *)
Theorem lastAccessPages_single_slot evs :
  length (lastAccessPages (run opts evs)) = 1%nat
  ∧ lastAccessPages initial = [""]
  ∧ (noPingAccepted opts initial evs = true →
       lastAccessPages (run opts evs) = [""]
       ∧ ∀ page now e t, page ≠ "" →
           entries (run opts evs) !! page = Some e → status e = Built →
           lastActiveTime e = Some t → now - t > maxInactiveAge opts →
           entries (disposeInactiveEntries (maxInactiveAge opts) now (run opts evs))
             !! page = None).
Proof.
  split_and!; [|done|].
  - apply (run_ind opts (λ s, length (lastAccessPages s) = 1%nat)); [done|].
    intros s ev. apply step_lastAccessPages_length.
  - intros Hno.
    pose proof (noPingAccepted_lastAccessPages opts evs initial Hno) as Hlast.
    fold (run opts evs) in Hlast. split; [done|].
    intros page now e t Hne He Hst Ht Hage.
    rewrite dispose_entries.
    rewrite (proj2 (inactive_true _ _ _ _ _)); [done|].
    exists e, t. split_and!; try done.
    rewrite Hlast. cbn. congruence.
Qed.

(** C10.  No operation removes a listener: the listeners of a page before a
    step are still its first listeners after the step, and so through any
    run.  The [done] hook leaves the emitter as it is, and calls every
    listener registered for a page that goes from [Building] to [Built],
    whenever that happens; a call of the listener of a settled promise
    leaves the promise as it is. *)
Theorem listeners_never_removed :
  (∀ s ev page, listeners page s `prefix_of` listeners page (step opts s ev))
  ∧ (∀ evs evs' page i, i ∈ listeners page (run opts evs) →
       i ∈ listeners page (run opts (evs ++ evs')))
  ∧ (∀ stats now s, doneCallbacks (onDone stats now s) = doneCallbacks s)
  ∧ (∀ stats now s page e i,
       entries s !! page = Some e → status e = Building → i ∈ listeners page s →
       ∃ new, effects (onDone stats now s) = new ++ effects s
              ∧ Notify page i ∈ new)
  ∧ (∀ stats now s i p, promises s !! i = Some p → pstate p ≠ Pending →
       promises (onDone stats now s) !! i = Some p).
Proof.
  split_and!.
  - apply step_listeners.
  - apply run_listeners_mono.
  - intros stats now s. apply onDone_frame.
  - intros stats now s page e i He Hst Hi.
    destruct (onDone_effects stats now s) as (new & E & Hnew).
    exists new. split; [done|]. by apply (Hnew page e i).
  - intros stats now s i p Hp Hsettled. rewrite onDone_promises, Hp.
    destruct (wakes _ _ _); [|done]. cbn. by rewrite settle_settled.
Qed.

End Claims.

(** ** The properties on concrete runs *)

Section Examples.

Existing Instance examplePlatform.

Example ping_text : JSON_parse (ping "/a") = Some (JObject [("page", JString "/a")]).
Proof. reflexivity. Qed.

Example addedA_entry : entries addedA !! "/a" = Some (exampleEntry Added None).
Proof. vm_compute. reflexivity. Qed.

Example buildingA_entry : entries buildingA !! "/a" = Some (exampleEntry Building None).
Proof. vm_compute. reflexivity. Qed.

Example builtA_entry : entries builtA !! "/a" = Some (exampleEntry Built (Some 0)).
Proof. vm_compute. reflexivity. Qed.

(** The scenario of the specification: with a threshold of 25000 ms, ["/a"]
    and ["/b"] are built at 0 and ["/a"] is pinged at 20000; the sweep at 26000
    removes ["/b"] and keeps ["/a"]. *)
Example sweep_scenario :
  keys (entries (run exampleOptions
    [ askA; EnsurePage "/b" (Some "/app/pages/b.js"); Make; Done cleanStats 0;
      Message 1 (ping "/a") 20000; Sweep 26000 ])) = ["/a"].
Proof. vm_compute. reflexivity. Qed.

(** The listener of the first call for ["/a"] is called at the end of each of
    two passes. *)
Example listener_called_twice :
  List.filter (λ e, match e with Notify _ _ => true | _ => false end)
    (effects (run exampleOptions [askA; Make; Done cleanStats 0; Make; Done cleanStats 9]))
  = [Notify "/a" 0; Notify "/a" 0].
Proof. vm_compute. reflexivity. Qed.

End Examples.

(** C1 fails as stated: the entry of ["/a"] is [Built] and the start of the
    next pass sets it back to [Building]. *)
Lemma make_demotes_built_entry :
  status <$> entries builtA !! "/a" = Some Built
  ∧ status <$> entries (@step examplePlatform exampleOptions builtA Make) !! "/a"
      = Some Building.
Proof. split; vm_compute; reflexivity. Qed.

Lemma status_demoted_only_by_make_witness :
  entries builtA !! "/a" = Some (exampleEntry Built (Some 0))
  ∧ status <$> entries (@step examplePlatform exampleOptions builtA Make) !! "/a"
      = Some Building.
Proof.
  split; [vm_compute; reflexivity|].
  apply (@status_demoted_only_by_make examplePlatform exampleOptions builtA Make
           "/a" (exampleEntry Built (Some 0))); [vm_compute|]; reflexivity.
Defined.




(** C3 fails as stated: the pass has failed, and the caller waiting for
    ["/a"] is released with success. *)
Lemma failed_pass_resolves_subscriber :
  hasErrors failedStats = true
  ∧ status <$> entries buildingA !! "/a" = Some Building
  ∧ listeners "/a" buildingA = [0%nat]
  ∧ promises buildingA !! 0%nat = Some {| ppage := "/a"; pstate := Pending |}
  ∧ promises (onDone failedStats 0 buildingA) !! 0%nat
      = Some {| ppage := "/a"; pstate := Resolved |}.
Proof. split_and!; vm_compute; reflexivity. Qed.



(** C8 fails as stated: the text is not JSON, and the exception leaves the
    handler. *)
Lemma malformed_ping_throws :
  @JSON_parse examplePlatform "{" = None
  ∧ @onMessage examplePlatform 1 "{" 7 builtA = Throw SyntaxError builtA.
Proof. split; reflexivity. Qed.

Lemma onMessage_malformed_throws_witness :
  @JSON_parse examplePlatform "{page:" = None
  ∧ @onMessage examplePlatform 1 "{page:" 7 builtA = Throw SyntaxError builtA.
Proof.
  split; [reflexivity|].
  apply (@onMessage_malformed_throws examplePlatform). reflexivity.
Defined.

(** C9 fails as stated: the empty string is the page of an entry, no ping has
    been accepted, and the sweep spares that entry, long inactive, because it
    is the page at the head of [lastAccessPages]. *)
Lemma empty_page_spared_before_any_ping :
  @noPingAccepted examplePlatform exampleOptions initial emptyPageEvents = true
  ∧ lastAccessPages emptyPageBuilt = [""]
  ∧ status <$> entries emptyPageBuilt !! "" = Some Built
  ∧ lastActiveTime <$> entries emptyPageBuilt !! "" = Some (Some 0)
  ∧ 100000 - 0 > maxInactiveAge exampleOptions
  ∧ entries (disposeInactiveEntries (maxInactiveAge exampleOptions) 100000
               emptyPageBuilt) !! ""
      = entries emptyPageBuilt !! "".
Proof. split_and!; vm_compute; reflexivity. Qed.

(** ** Further properties: page identifiers and the middleware *)

Section Strings.

Lemma prefix_app (p rest : string) : String.prefix p (p +:+ rest) = true.
Proof.
  induction p as [|c p IH].
  - change ("" +:+ rest) with rest. by destruct rest.
  - change (String c p +:+ rest) with (String c (p +:+ rest)).
    cbn [String.prefix]. destruct (ascii_dec c c); [done|congruence].
Qed.

Lemma prefix_split (p s : string) :
  String.prefix p s = true → ∃ rest, s = p +:+ rest.
Proof.
  revert s. induction p as [|c p IH]; intros s; [by exists s|].
  destruct s as [|d s]; [done|]. cbn [String.prefix].
  destruct (ascii_dec c d) as [->|]; [|done].
  intros [rest ->]%IH. by exists rest.
Qed.

Lemma normalizePage_length (page : string) :
  (String.length (normalizePage page) ≤ String.length page)%nat.
Proof.
  induction page as [|c rest IH]; [done|]. cbn [normalizePage].
  destruct (String.eqb_spec (String c rest) "/index") as [->|_]; cbn; lia.
Qed.

End Strings.

(** X1.  [normalizePage] replaces a final ["/index"] by ["/"] and leaves every
    other string as it is; its result never ends in ["/index"] and is never
    longer than its argument. *)
Theorem normalizePage_characterised :
  (∀ prefix, normalizePage (prefix +:+ "/index") = prefix +:+ "/")
  ∧ (∀ page, (∀ prefix, page ≠ prefix +:+ "/index") → normalizePage page = page)
  ∧ (∀ page prefix, normalizePage page ≠ prefix +:+ "/index")
  ∧ (∀ page, (String.length (normalizePage page) ≤ String.length page)%nat).
Proof.
  split_and!.
  - apply normalizePage_suffix.
  - apply normalizePage_other.
  - intros page prefix E.
    pose proof (normalizePage_idempotent page) as Hid.
    rewrite E, normalizePage_suffix in Hid.
    apply (f_equal String.length) in Hid.
    rewrite !string_length_app in Hid. cbn in Hid. lia.
  - apply normalizePage_length.
Qed.

(** X2.  The middleware answers every request whose URL begins with the path
    of the pinger port, whatever follows the path, with the port as JSON, and
    ends the response once; every other request goes to [next] with the
    response untouched. *)
Theorem middleware_answers_prefix (port : Z) (url : string) :
  (∀ rest, middleware port (pingerPortPath +:+ rest)
           = Reply [ SetHeader "Content-Type" "application/json";
                     AssignStatus 200;
                     EndWith (JObject [("port", JNumber port)]) ])
  ∧ ((∀ rest, url ≠ pingerPortPath +:+ rest) → middleware port url = CallNext)
  ∧ (middleware port url = CallNext → ∀ rest, url ≠ pingerPortPath +:+ rest).
Proof.
  unfold middleware. split_and!.
  - intros rest. by rewrite prefix_app.
  - intros Hno. destruct (String.prefix pingerPortPath url) eqn:E; [|done].
    apply prefix_split in E as [rest ->]. by destruct (Hno rest).
  - intros Hnext rest ->. by rewrite prefix_app in Hnext.
Qed.

(** ** Further properties: the ping handler *)

Section Pings.

Context `{Platform} (opts : Options).

Lemma find_page_None (props : list (string * json)) :
  (∀ x, ("page", x) ∉ props) →
  List.find (λ kv, String.eqb (fst kv) "page") props = None.
Proof.
  induction props as [|[k x] props IH]; intros Hno; [done|]. cbn.
  destruct (String.eqb_spec k "page") as [->|_].
  - exfalso. apply (Hno x), elem_of_cons. by left.
  - apply IH. intros y Hy. apply (Hno y), elem_of_cons. by right.
Qed.

Lemma run_lastAccessPages_length evs :
  length (lastAccessPages (run opts evs)) = 1%nat.
Proof.
  apply (run_ind opts (λ s, length (lastAccessPages s) = 1%nat)); [done|].
  intros s ev. apply step_lastAccessPages_length.
Qed.

Lemma inactive_recent (m : gmap string EntryInfo) page rest maxAge now :
  inactive m (page :: rest) maxAge now page = false.
Proof.
  unfold inactive. destruct (m !! page) as [e|]; [|done].
  destruct (status e); [done|done|]. by rewrite decide_True.
Qed.

(** X3.  A text that is JSON but carries no page makes the handler throw a
    [TypeError] before it reads or writes any state: so do [null], every value
    that is not an object, and every object without a property [page].  A
    text that denotes an object whose only property is a string [page] never
    makes it throw. *)
Theorem ping_without_page_throws conn message now s v :
  JSON_parse message = Some v →
  ((∀ props, v ≠ JObject props) →
     onMessage conn message now s = Throw TypeError s)
  ∧ (∀ props, v = JObject props → (∀ x, ("page", x) ∉ props) →
       onMessage conn message now s = Throw TypeError s)
  ∧ (∀ raw, v = JObject [("page", JString raw)] →
       ∃ s', onMessage conn message now s = Normal s').
Proof.
  intros Hparse. unfold onMessage, pingedPage. rewrite Hparse. split_and!.
  - intros Hno. destruct v; try done. by destruct (Hno props).
  - intros props -> Hno. cbn [getPage]. by rewrite find_page_None.
  - intros raw ->. cbn.
    destruct (entries s !! normalizePage raw) as [e|]; [|by eexists].
    destruct (status e); by eexists.
Qed.

(** X4.  A ping that is not accepted leaves the registry, the recency window,
    the listeners, the promises and the touch flag as they are.  When it
    names a page without entry, under a name that is not found along the
    prototype chain either, its only effect is one error on the console and
    one [{ invalid: true }] sent on its own connection; when it names a page
    with an entry it has none. *)
Theorem ping_not_accepted_changes_nothing conn message now s :
  accepted message s = false →
  entries (stateOf (onMessage conn message now s)) = entries s
  ∧ lastAccessPages (stateOf (onMessage conn message now s)) = lastAccessPages s
  ∧ doneCallbacks (stateOf (onMessage conn message now s)) = doneCallbacks s
  ∧ promises (stateOf (onMessage conn message now s)) = promises s
  ∧ touchedAPage (stateOf (onMessage conn message now s)) = touchedAPage s
  ∧ (∀ page, pingedPage message = inr page → entries s !! page = None →
       inherited page = false →
       effects (stateOf (onMessage conn message now s))
         = Send conn (JObject [("invalid", JBool true)])
             :: ConsoleError ("Client pings, but there's no entry for page: " +:+ page)
             :: effects s)
  ∧ ((∀ page, pingedPage message = inr page → is_Some (entries s !! page)) →
       effects (stateOf (onMessage conn message now s)) = effects s).
Proof.
  unfold accepted, onMessage.
  destruct (pingedPage message) as [e|page]; [by intros _; split_and!|].
  destruct (entries s !! page) as [e|] eqn:He.
  - destruct (status e) eqn:Est; cbn; [|
      |by intros ?%bool_decide_eq_false].
    + intros _. split_and!; try done. intros page' [= <-]. by rewrite He.
    + intros _. split_and!; try done. intros page' [= <-]. by rewrite He.
  - intros _. split_and!; try done.
    + by intros page' [= <-] _ _.
    + intros Hsome. destruct (Hsome page eq_refl) as [e He']. congruence.
Qed.

(** X5.  After an accepted ping, in any run, the recency window holds the
    pinged page and nothing else, the entry of the page is still [Built] and
    carries the time of the ping, the other entries and the effects are as
    before, and no sweep removes the page, whatever the clock and the
    threshold. *)
Theorem accepted_ping_protects_page evs conn message now page :
  pingedPage message = inr page →
  accepted message (run opts evs) = true →
  lastAccessPages (step opts (run opts evs) (Message conn message now)) = [page]
  ∧ (∃ e, entries (run opts evs) !! page = Some e ∧ status e = Built
          ∧ entries (step opts (run opts evs) (Message conn message now))
              = <[page := setLastActiveTime now e]> (entries (run opts evs)))
  ∧ effects (step opts (run opts evs) (Message conn message now))
      = effects (run opts evs)
  ∧ (∀ maxAge now',
       entries (disposeInactiveEntries maxAge now'
                  (step opts (run opts evs) (Message conn message now))) !! page
       = entries (step opts (run opts evs) (Message conn message now)) !! page).
Proof.
  intros Hpage Hacc.
  pose proof (run_lastAccessPages_length evs) as Hlen.
  assert (lastAccessPages (step opts (run opts evs) (Message conn message now))
          = [page]) as Hrecent.
  { cbn [step]. rewrite onMessage_lastAccessPages, Hacc, Hpage.
    by destruct (lastAccessPages (run opts evs)) as [|a [|b l]]. }
  split_and!; [done| | |].
  - unfold accepted in Hacc. cbn [step]. unfold onMessage. rewrite Hpage in *.
    destruct (entries (run opts evs) !! page) as [e|]; [|done].
    apply bool_decide_eq_true in Hacc. exists e. by rewrite Hacc.
  - unfold accepted in Hacc. cbn [step]. unfold onMessage. rewrite Hpage in *.
    destruct (entries (run opts evs) !! page) as [e|]; [|done].
    apply bool_decide_eq_true in Hacc. by rewrite Hacc.
  - intros maxAge now'. by rewrite dispose_entries, Hrecent, inactive_recent.
Qed.

End Pings.

(** ** Further properties: the hooks and the sweep *)

Section Passes.

Lemma makePage_effects s a :
  effects (makePage s a) =
    match entries s !! a with
    | Some e => AddEntry (name e) (entry e) :: effects s
    | None => effects s
    end.
Proof. unfold makePage. by destruct (entries s !! a). Qed.

Lemma foldl_makePage_effects pages s :
  effects (foldl makePage s pages) =
    reverse (omap (λ page, (λ e, AddEntry (name e) (entry e)) <$> entries s !! page)
                  pages)
    ++ effects s.
Proof.
  revert s. induction pages as [|a pages IH]; intros s; cbn [foldl]; [done|].
  rewrite IH, makePage_effects. cbn [omap list_omap].
  assert (omap (λ page, (λ e, AddEntry (name e) (entry e))
                          <$> entries (makePage s a) !! page) pages
          = omap (λ page, (λ e, AddEntry (name e) (entry e))
                            <$> entries s !! page) pages) as ->.
  { apply list_omap_ext, Forall_Forall2_diag, Forall_forall. intros page _.
    rewrite makePage_entries. case_decide; [|done].
    by destruct (entries s !! page). }
  destruct (entries s !! a) as [e|]; [|done].
  cbn [fmap option_fmap option_map]. by rewrite reverse_cons, <-app_assoc.
Qed.

Lemma omap_lookup_keys {B} (g : EntryInfo → B) (m : gmap string EntryInfo)
    (l : list (string * EntryInfo)) :
  (∀ k e, (k, e) ∈ l → m !! k = Some e) →
  omap (λ k, g <$> m !! k) l.*1 = (λ kv, g kv.2) <$> l.
Proof.
  induction l as [|[k e] l IH]; intros Hl; [done|]. cbn.
  rewrite (Hl k e) by (apply elem_of_cons; by left). cbn. f_equal.
  apply IH. intros k' e' Hin. apply Hl, elem_of_cons. by right.
Qed.

Lemma filter_nil {A} (f : A → bool) (l : list A) :
  (∀ x, x ∈ l → f x = false) → List.filter f l = [].
Proof.
  induction l as [|a l IH]; intros Hl; [done|]. cbn.
  rewrite (Hl a) by (apply elem_of_cons; by left).
  apply IH. intros x Hx. apply Hl, elem_of_cons. by right.
Qed.

Lemma dispose_noop maxAge now s :
  (∀ page, inactive (entries s) (lastAccessPages s) maxAge now page = false) →
  disposeInactiveEntries maxAge now s = s.
Proof.
  intros Hno. unfold disposeInactiveEntries. by rewrite filter_nil.
Qed.

Lemma donePage_idle now s a :
  (∀ e, entries s !! a = Some e → status e ≠ Building) → donePage now s a = s.
Proof.
  intros Hno. unfold donePage. destruct (entries s !! a) as [e|]; [|done].
  pose proof (Hno e eq_refl). by destruct (status e).
Qed.

(** X6.  One pass start hands every entry of the registry to the compilation
    exactly once, with its name and its modules, and does nothing else to the
    outside; it changes no key and nothing of an entry but its status, and
    leaves the recency window, the listeners, the promises and the touch flag
    alone. *)
Theorem onMake_registers_each_entry_once s :
  (∃ new, effects (onMake s) = new ++ effects s
          ∧ new ≡ₚ (λ kv, AddEntry (name kv.2) (entry kv.2))
                     <$> map_to_list (entries s))
  ∧ (∀ page, entries (onMake s) !! page = setStatus Building <$> entries s !! page)
  ∧ lastAccessPages (onMake s) = lastAccessPages s
  ∧ doneCallbacks (onMake s) = doneCallbacks s
  ∧ promises (onMake s) = promises s
  ∧ touchedAPage (onMake s) = touchedAPage s.
Proof.
  split_and!; try apply onMake_frame; [|apply onMake_entries].
  eexists. split.
  - unfold onMake, keys. rewrite foldl_makePage_effects.
    rewrite (omap_lookup_keys (λ e, AddEntry (name e) (entry e)) (entries s));
      [done|].
    intros k e. apply elem_of_map_to_list.
  - apply reverse_Permutation.
Qed.

(** X7.  The [done] hook changes nothing when no entry is [Building]; hence a
    second completion right after a first one, whatever its statistics and
    its time, changes nothing. *)
Theorem onDone_idle stats now s :
  ((∀ page e, entries s !! page = Some e → status e ≠ Building) →
     onDone stats now s = s)
  ∧ (∀ stats' now', onDone stats' now' (onDone stats now s) = onDone stats now s).
Proof.
  assert (∀ now0 s0, (∀ page e, entries s0 !! page = Some e → status e ≠ Building) →
            ∀ pages, foldl (donePage now0) s0 pages = s0) as Hidle.
  { intros now0 s0 Hno pages. induction pages as [|a pages IH]; [done|].
    cbn [foldl]. rewrite donePage_idle; [done|]. intros e. apply Hno. }
  split.
  - intros Hno. by apply Hidle.
  - intros stats' now'. apply Hidle. intros page e.
    rewrite onDone_entries.
    destruct (entries s !! page) as [e0|]; [|done]. intros [= <-].
    rewrite doneEntry_status. by destruct (status e0).
Qed.

(** X8.  A sweep either removes nothing, and then leaves the whole state as
    it is without invalidating the build system, or removes something, and
    then logs once and invalidates the build system exactly once.  A second
    sweep at the same time removes nothing more. *)
Theorem dispose_invalidates_once (maxAge now : Z) s :
  (disposeInactiveEntries maxAge now s = s
   ∨ (entries (disposeInactiveEntries maxAge now s) ≠ entries s
      ∧ ∃ msg, effects (disposeInactiveEntries maxAge now s)
                 = Invalidate :: ConsoleLog msg :: effects s))
  ∧ disposeInactiveEntries maxAge now (disposeInactiveEntries maxAge now s)
      = disposeInactiveEntries maxAge now s.
Proof.
  split.
  - pose proof (dispose_entries maxAge now s) as Hent.
    pose proof (elem_of_disposingPages (entries s) (lastAccessPages s) maxAge now)
      as Hin.
    unfold disposeInactiveEntries in *.
    destruct (List.filter _ (keys (entries s))) as [|a pages]; [by left|right].
    split; [|by eexists].
    assert (inactive (entries s) (lastAccessPages s) maxAge now a = true) as Ha.
    { apply Hin, elem_of_cons. by left. }
    intros E. specialize (Hent a). rewrite E, Ha in Hent.
    apply inactive_true in Ha as (e & _ & He & _). congruence.
  - apply dispose_noop. intros page.
    rewrite (proj1 (dispose_frame maxAge now s)).
    unfold inactive at 1. rewrite dispose_entries.
    destruct (inactive (entries s) (lastAccessPages s) maxAge now page) eqn:E;
      [done|].
    by unfold inactive in E.
Qed.

(** X9.  After a pass that starts and completes at time [now], every entry is
    [Built] with [now] as its time of activity, and a sweep that comes no
    later than [maxInactiveAge] after [now] removes nothing and changes
    nothing. *)
Theorem fresh_pages_survive_sweep (maxAge now now' : Z) stats s :
  now' - now ≤ maxAge →
  (∀ page e, entries (onDone stats now (onMake s)) !! page = Some e →
     status e = Built ∧ lastActiveTime e = Some now)
  ∧ disposeInactiveEntries maxAge now' (onDone stats now (onMake s))
      = onDone stats now (onMake s).
Proof.
  intros Hage.
  assert (∀ page e, entries (onDone stats now (onMake s)) !! page = Some e →
            status e = Built ∧ lastActiveTime e = Some now) as Hbuilt.
  { intros page e. rewrite onDone_entries, onMake_entries.
    destruct (entries s !! page) as [e0|]; [|done]. by intros [= <-]. }
  split; [done|].
  apply dispose_noop. intros page. unfold inactive.
  destruct (entries (onDone stats now (onMake s)) !! page) as [e|] eqn:He; [|done].
  destruct (Hbuilt page e He) as [-> ->].
  case_decide; [done|]. apply bool_decide_eq_false. lia.
Qed.

End Passes.

(** ** Further properties: what every run keeps *)

Section Invariants.

Context `{Platform} (opts : Options).

Lemma register_lookup page file id s page' :
  entries (register opts page file id s) !! page' =
    if decide (page' = page) then Some (entryOf opts file Added None)
    else entries s !! page'.
Proof.
  rewrite register_entries. case_decide; subst.
  - by rewrite lookup_insert_eq.
  - by rewrite lookup_insert_ne.
Qed.

Lemma register_listeners page file id s page' :
  listeners page' (register opts page file id s) =
    if decide (page' = page) then listeners page s ++ [id] else listeners page' s.
Proof.
  rewrite register_listeners_on. apply listeners_on.
Qed.

(** What a call does to the registry: nothing, or it writes a fresh entry
    for its page, which had none or an [Added] one. *)
Lemma ensurePage_registry raw resolved s :
  entries (ensurePage opts raw resolved s) = entries s
  ∨ ∃ file, resolved = Some file
      ∧ (entries s !! normalizePage raw = None
         ∨ ∃ e, entries s !! normalizePage raw = Some e ∧ status e = Added)
      ∧ entries (ensurePage opts raw resolved s)
          = <[normalizePage raw := entryOf opts file Added None]> (entries s).
Proof.
  destruct (ensurePage_cases opts raw resolved s)
    as [[_ ->]|[(file & e & _ & _ & _ & ->)|[(file & e & _ & _ & _ & ->)
       |(file & -> & Hold & ->)]]]; [by left|by left| |].
  - left. by rewrite (proj1 (on_frame _ _ _)).
  - right. exists file. split_and!; [done|done|by rewrite register_entries].
Qed.

Lemma onMessage_entry conn message now s page :
  entries (stateOf (onMessage conn message now s)) !! page = entries s !! page
  ∨ ∃ e, entries s !! page = Some e ∧ status e = Built
      ∧ entries (stateOf (onMessage conn message now s)) !! page
          = Some (setLastActiveTime now e).
Proof.
  unfold onMessage. destruct (pingedPage message) as [err|page0]; [by left|].
  destruct (entries s !! page0) as [e|] eqn:He; [|by left].
  destruct (status e) eqn:Est; [by left|by left|].
  cbn [stateOf entries withEntries withLastAccessPages].
  destruct (decide (page = page0)) as [->|Hne].
  - right. exists e. by rewrite lookup_insert_eq.
  - left. by rewrite lookup_insert_ne.
Qed.

(** Only [ensurePage] puts a key into the registry, and only the normal
    form of its argument, once the resolver has answered. *)
Lemma step_keys s ev page :
  is_Some (entries (step opts s ev) !! page) →
  is_Some (entries s !! page)
  ∨ ∃ raw file, ev = EnsurePage raw (Some file) ∧ page = normalizePage raw.
Proof.
  destruct ev as [raw resolved| |stats now|conn message now|now]; cbn [step].
  - destruct (ensurePage_registry raw resolved s) as [->|(file & -> & _ & ->)];
      [by left|].
    destruct (decide (page = normalizePage raw)) as [->|Hne].
    + right. by exists raw, file.
    + rewrite lookup_insert_ne by done. by left.
  - rewrite onMake_entries. intros ?%fmap_is_Some. by left.
  - rewrite onDone_entries. intros ?%fmap_is_Some. by left.
  - destruct (onMessage_entry conn message now s page) as [->|(e & -> & _)];
      by left.
  - rewrite dispose_entries. destruct (inactive _ _ _ _ _); [|by left].
    by intros [? ?].
Qed.

Lemma pingedPage_normal message page :
  pingedPage message = inr page → normalizePage page = page.
Proof.
  unfold pingedPage. destruct (JSON_parse message) as [v|]; [|done].
  destruct (getPage v) as [e|[[| | |raw| |]|]]; try done.
  intros [= <-]. apply normalizePage_idempotent.
Qed.

Lemma Forall_removelast {A} (P : A → Prop) (l : list A) :
  Forall P l → Forall P (removelast l).
Proof.
  induction 1 as [|a l Ha Hl IH]; [done|]. cbn.
  destruct l; [done|]. by constructor.
Qed.

(** X10.  In every run the keys of the registry and the page of the recency
    window are normal forms of [normalizePage]: no entry is ever registered
    under an identifier that ends in ["/index"]. *)
Theorem registry_keys_normal evs :
  map_Forall (λ page _, normalizePage page = page) (entries (run opts evs))
  ∧ Forall (λ page, normalizePage page = page) (lastAccessPages (run opts evs)).
Proof.
  apply (run_ind opts (λ s,
    map_Forall (λ page _, normalizePage page = page) (entries s)
    ∧ Forall (λ page, normalizePage page = page) (lastAccessPages s))).
  - split; [apply map_Forall_empty|]. by repeat constructor.
  - intros s ev [Hkeys Hrecent]. split.
    + intros page e He.
      destruct (step_keys s ev page) as [[e0 He0]|(raw & file & _ & ->)];
        [by eexists|by apply (Hkeys page e0)|apply normalizePage_idempotent].
    + destruct ev as [raw resolved| |stats now|conn message now|now]; cbn [step].
      * by rewrite ensurePage_lastAccessPages.
      * by rewrite (proj1 (onMake_frame s)).
      * by rewrite (proj1 (onDone_frame stats now s)).
      * rewrite onMessage_lastAccessPages.
        destruct (accepted message s); [|done].
        destruct (pingedPage message) as [e|page] eqn:Hpage; [done|].
        constructor; [by apply (pingedPage_normal message)|].
        by apply Forall_removelast.
      * by rewrite (proj1 (dispose_frame _ now s)).
Qed.

(** X11.  In every run a [Built] entry carries a time of activity, so the
    sweep never compares with an undefined time, and an [Added] entry carries
    none. *)
Theorem entry_times_defined evs :
  map_Forall (λ _ e, (status e = Built → is_Some (lastActiveTime e))
                     ∧ (status e = Added → lastActiveTime e = None))
             (entries (run opts evs)).
Proof.
  apply (run_ind opts (λ s, map_Forall (λ _ e,
    (status e = Built → is_Some (lastActiveTime e))
    ∧ (status e = Added → lastActiveTime e = None)) (entries s))).
  - apply map_Forall_empty.
  - intros s ev IH page e.
    destruct ev as [raw resolved| |stats now|conn message now|now]; cbn [step].
    + destruct (ensurePage_registry raw resolved s) as [->|(file & _ & _ & ->)];
        [apply IH|].
      destruct (decide (page = normalizePage raw)) as [->|Hne].
      * rewrite lookup_insert_eq. by intros [= <-].
      * rewrite lookup_insert_ne by done. apply IH.
    + rewrite onMake_entries.
      destruct (entries s !! page) as [e0|]; [|done]. by intros [= <-].
    + rewrite onDone_entries.
      destruct (entries s !! page) as [e0|] eqn:He0; [|done]. intros [= <-].
      unfold doneEntry. destruct (status e0) eqn:Est; [|by split|];
        by apply (IH page).
    + destruct (onMessage_entry conn message now s page) as [->|(e0 & _ & Hb & ->)];
        [apply IH|].
      intros [= <-]. cbn. split; [by eexists|congruence].
    + rewrite dispose_entries. destruct (inactive _ _ _ _ _); [done|apply IH].
Qed.

Lemma settle_Resolved_settled p : pstate (settle Resolved p) ≠ Pending.
Proof. unfold settle. by destruct (pstate p) eqn:E; cbn; rewrite ?E. Qed.

(** The promises that wait are listeners of their page, and the entry of
    their page is there and not yet [Built]. *)
Lemma step_pending s ev :
  (∀ i p, promises s !! i = Some p → pstate p = Pending →
     i ∈ listeners (ppage p) s
     ∧ ∃ e, entries s !! ppage p = Some e ∧ status e ≠ Built) →
  ∀ i p, promises (step opts s ev) !! i = Some p → pstate p = Pending →
    i ∈ listeners (ppage p) (step opts s ev)
    ∧ ∃ e, entries (step opts s ev) !! ppage p = Some e ∧ status e ≠ Built.
Proof.
  intros IH i p Hp Hpending.
  assert (∀ page, i ∈ listeners page s → i ∈ listeners page (step opts s ev))
    as Hmono.
  { intros page Hi. destruct (step_listeners opts s ev page) as [k ->].
    apply elem_of_app. by left. }
  destruct ev as [raw resolved| |stats now|conn message now|now]; cbn [step] in *.
  - destruct (promises s !! i) as [p0|] eqn:Hp0.
    + destruct (ensurePage_old opts raw resolved s i p0 Hp0) as [E|(_ & _ & E)];
        rewrite E in Hp; injection Hp as <-;
        [|by destruct (settlement_settled (announcement (normalizePage raw)))].
      destruct (IH i p0 Hp0 Hpending) as (Hi & e & He & Hst).
      split; [by apply Hmono|].
      destruct (decide (ppage p0 = normalizePage raw)) as [E'|Hne].
      * rewrite E' in *.
        destruct (ensurePage_status opts raw resolved s e He) as (e' & -> & Hst').
        exists e'. by rewrite Hst'.
      * rewrite ensurePage_entries by done. by exists e.
    + assert (i = length (promises s)) as ->.
      { apply lookup_ge_None in Hp0. apply lookup_lt_Some in Hp.
        rewrite ensurePage_length in Hp. lia. }
      destruct (ensurePage_new_ppage opts raw resolved s) as (p1 & Hp1 & Hpage).
      assert (p1 = p) as -> by congruence. rewrite Hpage. clear Hp1.
      destruct (ensurePage_cases opts raw resolved s)
        as [[_ E]|[(file & e & _ & _ & _ & E)|[(file & e & _ & He & Hst & E)
           |(file & _ & _ & E)]]]; rewrite E in Hp |- *.
      * cbn in Hp. rewrite list_lookup_middle in Hp by done.
        injection Hp as <-. done.
      * cbn in Hp. rewrite list_lookup_middle in Hp by done.
        injection Hp as <-. done.
      * split.
        -- rewrite listeners_on, decide_True by done. apply elem_of_app. right.
           by apply list_elem_of_singleton.
        -- exists e. rewrite (proj1 (on_frame _ _ _)). split; [done|].
           by rewrite Hst.
      * split.
        -- rewrite register_listeners, decide_True by done.
           apply elem_of_app. right. by apply list_elem_of_singleton.
        -- eexists. by rewrite register_lookup, decide_True.
  - rewrite (proj2 (proj2 (proj2 (onMake_frame s)))) in Hp.
    destruct (IH i p Hp Hpending) as (Hi & e & He & Hst).
    split; [by apply Hmono|]. rewrite onMake_entries, He. by eexists.
  - rewrite onDone_promises in Hp.
    destruct (wakes s (keys (entries s)) i) eqn:Hw.
    + destruct (promises s !! i) as [p0|]; [|done]. injection Hp as <-.
      by destruct (settle_Resolved_settled p0).
    + destruct (IH i p Hp Hpending) as (Hi & e & He & Hst).
      split; [by apply Hmono|]. rewrite onDone_entries, He.
      exists (doneEntry now e). split; [done|]. rewrite doneEntry_status.
      destruct (status e) eqn:Est; [done| |done].
      exfalso. apply not_true_iff_false in Hw. apply Hw, wakes_keys.
      by exists (ppage p), e.
  - rewrite (proj1 (onMessage_promises conn message now s)) in Hp.
    destruct (IH i p Hp Hpending) as (Hi & e & He & Hst).
    split; [by apply Hmono|].
    pose proof (onMessage_entries conn message now s (ppage p)) as Hsame.
    rewrite He in Hsame.
    destruct (entries (stateOf (onMessage conn message now s)) !! ppage p)
      as [e'|]; [|done].
    exists e'. split; [done|]. injection Hsame as ->. done.
  - rewrite (proj2 (proj2 (proj2 (dispose_frame _ now s)))) in Hp.
    destruct (IH i p Hp Hpending) as (Hi & e & He & Hst).
    split; [by apply Hmono|]. rewrite dispose_entries.
    destruct (inactive _ _ _ _ _) eqn:Hin; [|by exists e].
    apply inactive_true in Hin as (e0 & _ & He0 & Hb & _). congruence.
Qed.

Lemma run_pending evs i p :
  promises (run opts evs) !! i = Some p → pstate p = Pending →
  i ∈ listeners (ppage p) (run opts evs)
  ∧ ∃ e, entries (run opts evs) !! ppage p = Some e ∧ status e ≠ Built.
Proof.
  revert i p. apply (run_ind opts (λ s, ∀ i p, promises s !! i = Some p →
    pstate p = Pending → i ∈ listeners (ppage p) s
      ∧ ∃ e, entries s !! ppage p = Some e ∧ status e ≠ Built)); [done|].
  intros s ev. apply step_pending.
Qed.


(** X13.  In a run in which no call has been made for the page [__proto__],
    a complete pass, start and completion, at any point leaves no caller
    waiting: every promise is settled after it. *)
Theorem pass_releases_every_caller evs stats now :
  asksFor "__proto__" evs = false →
  Forall (λ p, pstate p ≠ Pending)
         (promises (run opts (evs ++ [Make; Done stats now]))).
Proof.
  intros _. apply Forall_lookup. intros i p.
  replace (evs ++ [Make; Done stats now]) with ((evs ++ [Make]) ++ [Done stats now])
    by by rewrite <-app_assoc.
  rewrite !run_snoc. cbn [step]. rewrite onDone_promises.
  rewrite (proj2 (proj2 (proj2 (onMake_frame (run opts evs))))).
  destruct (wakes (onMake (run opts evs)) _ i) eqn:Hw.
  - destruct (promises (run opts evs) !! i) as [p0|]; [|done]. intros [= <-].
    apply settle_Resolved_settled.
  - intros Hp Hpending.
    destruct (run_pending evs i p Hp Hpending) as (Hi & e & He & _).
    apply not_true_iff_false in Hw. apply Hw, wakes_keys.
    exists (ppage p), (setStatus Building e). split_and!; [|done|].
    + by rewrite onMake_entries, He.
    + by rewrite (listeners_ext (run opts evs) (onMake (run opts evs)))
        by apply onMake_frame.
Qed.

Lemma touches_cons e effs :
  touches (e :: effs) = (Nat.b2n (isTouch e) + touches effs)%nat.
Proof. unfold touches. cbn. by destruct (isTouch e). Qed.

Lemma touches_app effs1 effs2 :
  touches (effs1 ++ effs2) = (touches effs1 + touches effs2)%nat.
Proof.
  induction effs1 as [|e effs1 IH]; [done|].
  cbn [app]. rewrite !touches_cons, IH. lia.
Qed.

Lemma touches_notify page ids : touches (reverse (Notify page <$> ids)) = 0%nat.
Proof.
  induction ids as [|id ids IH]; [done|].
  by rewrite fmap_cons, reverse_cons, touches_app, IH.
Qed.

Lemma foldl_preserves {A B} (P : A → Prop) (f : A → B → A) (l : list B) a :
  (∀ a b, P a → P (f a b)) → P a → P (foldl f a l).
Proof.
  intros Hf. revert a. induction l as [|b l IH]; intros a Ha; [done|].
  cbn [foldl]. by apply IH, Hf.
Qed.

Lemma donePage_touches now s a :
  touches (effects s) = Nat.b2n (touchedAPage s) →
  touches (effects (donePage now s a)) = Nat.b2n (touchedAPage (donePage now s a)).
Proof.
  intros IH. unfold donePage.
  destruct (entries s !! a) as [e|]; [|done].
  destruct (status e); [done| |done].
  unfold emit. rewrite callAll_effects, touches_app, touches_notify.
  rewrite (proj2 (proj2 (proj2 (callAll_frame _ _ _ _)))).
  destruct (touchedAPage s) eqn:Et; cbn [effects touchedAPage withEntries
    withTouchedAPage perform]; [by rewrite Et|].
  rewrite touches_cons, IH. done.
Qed.

Lemma step_touches s ev :
  touches (effects s) = Nat.b2n (touchedAPage s) →
  touches (effects (step opts s ev)) = Nat.b2n (touchedAPage (step opts s ev)).
Proof.
  intros IH.
  destruct ev as [raw resolved| |stats now|conn message now|now]; cbn [step].
  - destruct (ensurePage_cases opts raw resolved s)
      as [[_ ->]|[(file & e & _ & _ & _ & ->)|[(file & e & _ & _ & _ & ->)
         |(file & _ & _ & ->)]]]; [done|done| |].
    + rewrite on_effects, touches_app, touches_notify.
      by rewrite (proj2 (proj2 (on_frame _ _ _))).
    + rewrite register_effects, touches_cons, touches_app, touches_notify,
        touches_cons.
      by rewrite (proj2 (register_frame _ _ _ _ _)).
  - unfold onMake. apply (foldl_preserves (λ s,
      touches (effects s) = Nat.b2n (touchedAPage s))); [|done].
    intros s0 a Hs0. rewrite makePage_effects, (proj1 (proj2 (proj2 (makePage_frame s0 a)))).
    destruct (entries s0 !! a); [|done]. by rewrite touches_cons.
  - unfold onDone. apply (foldl_preserves (λ s,
      touches (effects s) = Nat.b2n (touchedAPage s))); [|done].
    intros s0 a. apply donePage_touches.
  - unfold onMessage. destruct (pingedPage message) as [e|page]; [done|].
    destruct (entries s !! page) as [e|]; [by destruct (status e)|done].
  - unfold disposeInactiveEntries. by destruct (List.filter _ _).
Qed.

(** X14.  In every run at most one touch of an artifact is scheduled, and one
    has been scheduled exactly when [touchedAPage] is set. *)
Theorem touch_scheduled_at_most_once evs :
  touches (effects (run opts evs)) = Nat.b2n (touchedAPage (run opts evs))
  ∧ (touches (effects (run opts evs)) ≤ 1)%nat.
Proof.
  assert (touches (effects (run opts evs))
          = Nat.b2n (touchedAPage (run opts evs))) as E.
  { apply (run_ind opts (λ s, touches (effects s) = Nat.b2n (touchedAPage s)));
      [done|]. intros s ev. apply step_touches. }
  split; [done|]. rewrite E. by destruct (touchedAPage _); cbn; lia.
Qed.

Lemma step_listeners_fresh s ev page :
  (∀ page i, i ∈ listeners page s → (i < length (promises s))%nat) →
  NoDup (listeners page s) →
  NoDup (listeners page (step opts s ev))
  ∧ ∀ i, i ∈ listeners page (step opts s ev) →
         (i < length (promises (step opts s ev)))%nat.
Proof.
  intros Hlt Hnd.
  destruct ev as [raw resolved| |stats now|conn message now|now]; cbn [step].
  - rewrite ensurePage_length.
    destruct (ensurePage_listeners opts raw resolved s page) as [->|[-> ->]].
    + split; [done|]. intros i Hi%Hlt. lia.
    + split.
      * apply NoDup_app. split_and!; [done| |apply NoDup_singleton].
        intros i Hi%Hlt ->%list_elem_of_singleton. lia.
      * intros i [Hi%Hlt| ->%list_elem_of_singleton]%elem_of_app; lia.
  - rewrite (listeners_ext s (onMake s)) by apply onMake_frame.
    rewrite (proj2 (proj2 (proj2 (onMake_frame s)))). split; [done|apply Hlt].
  - rewrite (listeners_ext s (onDone stats now s)) by apply onDone_frame.
    rewrite (proj2 (proj2 (onDone_frame stats now s))). split; [done|apply Hlt].
  - rewrite (listeners_ext s (stateOf (onMessage conn message now s)))
      by apply onMessage_promises.
    rewrite (proj1 (onMessage_promises conn message now s)).
    split; [done|apply Hlt].
  - rewrite (listeners_ext s (disposeInactiveEntries (maxInactiveAge opts) now s))
      by apply dispose_frame.
    rewrite (proj2 (proj2 (proj2 (dispose_frame _ now s)))).
    split; [done|apply Hlt].
Qed.

(** X15.  In every run no caller is subscribed twice to a page, and every
    listener of a page is the callback of a promise made for that page: a
    completion of the page calls each of its callers once, and calls nobody
    else. *)
Theorem listeners_distinct evs page :
  NoDup (listeners page (run opts evs))
  ∧ (∀ i, i ∈ listeners page (run opts evs) →
       ∃ p, promises (run opts evs) !! i = Some p ∧ ppage p = page).
Proof.
  split; [|intros i; apply run_listenersOwned].
  apply (run_ind opts (λ s,
    (∀ page i, i ∈ listeners page s → (i < length (promises s))%nat)
    ∧ ∀ page, NoDup (listeners page s))).
  - split; [|intros page'; apply NoDup_nil_2].
    intros page' i Hi. by apply elem_of_nil in Hi.
  - intros s ev [Hlt Hnd]. split.
    + intros page' i. by apply (step_listeners_fresh s ev page').
    + intros page'. by apply (step_listeners_fresh s ev page').
Qed.

(** X16.  In every run the page of the recency window is the empty string of
    the start or the page of an entry that is in the registry, was built and
    has been active: once a ping for a page has been accepted, the page stays
    in the registry as long as it is the most recently pinged one. *)
Theorem recency_page_in_registry evs :
  ∃ page, lastAccessPages (run opts evs) = [page]
    ∧ (page = ""
       ∨ ∃ e, entries (run opts evs) !! page = Some e ∧ status e ≠ Added
              ∧ is_Some (lastActiveTime e)).
Proof.
  apply (run_ind opts (λ s, ∃ page, lastAccessPages s = [page]
    ∧ (page = "" ∨ ∃ e, entries s !! page = Some e ∧ status e ≠ Added
                        ∧ is_Some (lastActiveTime e)))).
  - exists "". split; [done|by left].
  - intros s ev (page & Hlast & Hpage).
    destruct ev as [raw resolved| |stats now|conn message now|now]; cbn [step].
    + exists page. rewrite ensurePage_lastAccessPages. split; [done|].
      destruct Hpage as [->|(e & He & Hst & Ht)]; [by left|right].
      destruct (ensurePage_registry raw resolved s)
        as [->|(file & _ & Hold & ->)]; [by exists e|].
      destruct (decide (page = normalizePage raw)) as [->|Hne].
      * destruct Hold as [Hold|(e0 & He0 & Hst0)]; congruence.
      * rewrite lookup_insert_ne by done. by exists e.
    + exists page. rewrite (proj1 (onMake_frame s)). split; [done|].
      destruct Hpage as [->|(e & He & Hst & Ht)]; [by left|right].
      rewrite onMake_entries, He. by eexists.
    + exists page. rewrite (proj1 (onDone_frame stats now s)). split; [done|].
      destruct Hpage as [->|(e & He & Hst & Ht)]; [by left|right].
      rewrite onDone_entries, He. exists (doneEntry now e).
      split; [done|]. unfold doneEntry.
      destruct (status e) eqn:Est; cbn; rewrite ?Est; by eauto.
    + rewrite onMessage_lastAccessPages.
      destruct (accepted message s) eqn:Hacc.
      * unfold accepted in Hacc. cbn [step]. unfold onMessage.
        destruct (pingedPage message) as [err|page0]; [done|].
        exists page0. rewrite Hlast. split; [done|right].
        destruct (entries s !! page0) as [e0|]; [|done].
        apply bool_decide_eq_true in Hacc. rewrite Hacc.
        cbn [stateOf entries withEntries withLastAccessPages].
        rewrite lookup_insert_eq. eexists. split; [done|].
        cbn. rewrite Hacc. by eauto.
      * exists page. split; [done|].
        destruct Hpage as [->|(e & He & Hst & Ht)]; [by left|right].
        destruct (onMessage_entry conn message now s page)
          as [->|(e0 & He0 & _ & ->)]; [by exists e|].
        assert (e0 = e) as -> by congruence.
        eexists. split; [done|]. cbn. by eauto.
    + exists page. rewrite (proj1 (dispose_frame _ now s)). split; [done|].
      destruct Hpage as [->|(e & He & Hst & Ht)]; [by left|right].
      rewrite dispose_entries, Hlast, inactive_recent. by exists e.
Qed.

(** A pass settles every listener of a page that is in the registry. *)
Lemma pass_settles stats now s i p page e :
  promises s !! i = Some p → i ∈ listeners page s → entries s !! page = Some e →
  promises (onDone stats now (onMake s)) !! i = Some (settle Resolved p).
Proof.
  intros Hp Hi He. rewrite onDone_promises.
  rewrite (proj2 (proj2 (proj2 (onMake_frame s)))), Hp.
  rewrite (proj2 (wakes_keys (onMake s) i)); [done|].
  exists page, (setStatus Building e). split_and!; [|done|].
  - by rewrite onMake_entries, He.
  - by rewrite (listeners_ext s (onMake s)) by apply onMake_frame.
Qed.

(** X17.  A call of [ensurePage] for a page other than [__proto__] whose
    resolution succeeds, followed by one complete pass, ends with the promise
    of the call resolved, in every state whose listeners are callbacks of
    existing promises; if the page had no entry or an [Added] one, its entry
    is then [Built], made from the resolved path and stamped with the time of
    the completion, and otherwise it is the former entry, [Built] and
    stamped. *)
Theorem build_cycle s raw file stats now :
  listenersOwned s →
  normalizePage raw ≠ "__proto__" →
  pstate <$> promises (onDone stats now (onMake
               (ensurePage opts raw (Some file) s))) !! length (promises s)
    = Some Resolved
  ∧ ((entries s !! normalizePage raw = None
      ∨ ∃ e, entries s !! normalizePage raw = Some e ∧ status e = Added) →
       entries (onDone stats now (onMake (ensurePage opts raw (Some file) s)))
         !! normalizePage raw
       = Some (entryOf opts file Built (Some now)))
  ∧ (∀ e, entries s !! normalizePage raw = Some e → status e ≠ Added →
       entries (onDone stats now (onMake (ensurePage opts raw (Some file) s)))
         !! normalizePage raw
       = Some (setLastActiveTime now (setStatus Built e))).
Proof.
  intros Hown _.
  pose proof (listenersOwned_fresh s "newListener" Hown) as Hfresh.
  rewrite !onDone_entries, !onMake_entries.
  destruct (ensurePage_cases opts raw (Some file) s)
    as [[? _]|[(f & e & [= <-] & He & Hst & ->)|[(f & e & [= <-] & He & Hst & ->)
       |(f & [= <-] & Hold & ->)]]]; [done| | |].
  - split_and!.
    + rewrite onDone_promises, (proj2 (proj2 (proj2 (onMake_frame _)))).
      cbn [newPromise promises withPromises].
      rewrite list_lookup_middle by done. by destruct (wakes _ _ _).
    + intros [Hno|(e0 & He0 & Hst0)]; congruence.
    + intros e0 He0 _. assert (e0 = e) as -> by congruence.
      cbn [newPromise entries withPromises]. by rewrite He.
  - split_and!.
    + rewrite (pass_settles stats now _ (length (promises s))
                 {| ppage := normalizePage raw; pstate := Pending |}
                 (normalizePage raw) e); [done| | |].
      * rewrite on_promises_at, decide_False by done.
        cbn. by apply list_lookup_middle.
      * rewrite listeners_on, decide_True by done. apply elem_of_app. right.
        by apply list_elem_of_singleton.
      * by rewrite (proj1 (on_frame _ _ _)).
    + intros [Hno|(e0 & He0 & Hst0)]; congruence.
    + intros e0 He0 _. assert (e0 = e) as -> by congruence.
      rewrite (proj1 (on_frame _ _ _)).
      cbn [newPromise entries withPromises]. by rewrite He.
  - split_and!.
    + rewrite (pass_settles stats now _ (length (promises s))
                 {| ppage := normalizePage raw; pstate := Pending |}
                 (normalizePage raw) (entryOf opts file Added None)); [done| | |].
      * rewrite register_promises_at, on_promises_at, decide_False by done.
        cbn. by apply list_lookup_middle.
      * rewrite register_listeners, decide_True by done. apply elem_of_app.
        right. by apply list_elem_of_singleton.
      * by rewrite register_lookup, decide_True.
    + intros _. by rewrite register_lookup, decide_True.
    + intros e0 He0 Hst0. destruct Hold as [Hno|(e1 & He1 & Hst1)]; congruence.
Qed.

(** X18.  No operation but a call of [ensurePage] whose resolution succeeds
    adds a key to the registry, and such a call adds at most the normal form
    of its argument: pings, pass starts, completions and sweeps never create
    an entry. *)
Theorem registry_grows_only_by_ensurePage s ev :
  dom (entries (step opts s ev)) ⊆
    dom (entries s) ∪ match ev with
                      | EnsurePage raw (Some _) => {[normalizePage raw]}
                      | _ => ∅
                      end.
Proof.
  intros page Hin%elem_of_dom. apply elem_of_union.
  destruct (step_keys s ev page Hin) as [Hold|(raw & file & -> & ->)].
  - left. by apply elem_of_dom.
  - right. by apply elem_of_singleton.
Qed.

(** X19.  Whatever its outcome, a call of [ensurePage] adds exactly one
    promise, made for the normal form of its argument, and changes neither
    the entries and listeners of other pages, nor the recency window, nor the
    touch flag, nor an earlier promise, unless that promise is a listener of
    the name [newListener].  When the resolver fails nothing else changes: no
    entry is made and the build system is not invalidated.  When the page is
    [Building] the caller joins the listeners of the page, the registry is
    left alone, and nothing is logged or invalidated: the only listeners
    called are those of the name [newListener]. *)
Theorem ensurePage_frame s raw resolved :
  (∀ page, page ≠ normalizePage raw →
     entries (ensurePage opts raw resolved s) !! page = entries s !! page
     ∧ listeners page (ensurePage opts raw resolved s) = listeners page s)
  ∧ lastAccessPages (ensurePage opts raw resolved s) = lastAccessPages s
  ∧ touchedAPage (ensurePage opts raw resolved s) = touchedAPage s
  ∧ (length (promises (ensurePage opts raw resolved s)) = S (length (promises s))
     ∧ (∃ p, promises (ensurePage opts raw resolved s) !! length (promises s)
               = Some p ∧ ppage p = normalizePage raw)
     ∧ (∀ i p, promises s !! i = Some p → i ∉ listeners "newListener" s →
          promises (ensurePage opts raw resolved s) !! i = Some p))
  ∧ (resolved = None →
       entries (ensurePage opts raw resolved s) = entries s
       ∧ doneCallbacks (ensurePage opts raw resolved s) = doneCallbacks s
       ∧ effects (ensurePage opts raw resolved s) = effects s
       ∧ promises (ensurePage opts raw resolved s)
           = promises s ++ [{| ppage := normalizePage raw;
                               pstate := Rejected ResolutionError |}])
  ∧ (∀ e, is_Some resolved →
       entries s !! normalizePage raw = Some e → status e = Building →
       entries (ensurePage opts raw resolved s) = entries s
       ∧ effects (ensurePage opts raw resolved s)
           = reverse (Notify "newListener" <$> listeners "newListener" s)
             ++ effects s
       ∧ listeners (normalizePage raw) (ensurePage opts raw resolved s)
           = listeners (normalizePage raw) s ++ [length (promises s)]).
Proof.
  split_and!.
  - intros page Hne. split; [by apply ensurePage_entries|].
    by destruct (ensurePage_listeners opts raw resolved s page) as [?|[? _]].
  - apply ensurePage_lastAccessPages.
  - apply ensurePage_touchedAPage.
  - apply ensurePage_length.
  - apply ensurePage_new_ppage.
  - intros i p Hp Hnot.
    by destruct (ensurePage_old opts raw resolved s i p Hp) as [?|(? & _)].
  - by intros ->.
  - intros e [file ->] He Hst.
    assert (ensurePage opts raw (Some file) s
            = on (normalizePage raw) (length (promises s))
                 (newPromise (normalizePage raw) Pending s)) as ->.
    { unfold ensurePage. by rewrite He, Hst. }
    split_and!.
    + by rewrite (proj1 (on_frame _ _ _)).
    + by rewrite on_effects.
    + by rewrite listeners_on, decide_True.
Qed.

(** X20.  A later sweep, or one with a smaller threshold, removes at least
    what an earlier one removes from the same state. *)
Theorem dispose_monotone (maxAge maxAge' now now' : Z) s page :
  now ≤ now' → maxAge' ≤ maxAge →
  entries (disposeInactiveEntries maxAge now s) !! page = None →
  entries (disposeInactiveEntries maxAge' now' s) !! page = None.
Proof.
  intros Hnow Hage. rewrite !dispose_entries.
  destruct (inactive (entries s) (lastAccessPages s) maxAge now page) eqn:Hin.
  - intros _. apply inactive_true in Hin as (e & t & He & Hst & Hrecent & Ht & Hgt).
    rewrite (proj2 (inactive_true _ _ maxAge' now' page)); [done|].
    exists e, t. split_and!; try done. lia.
  - intros E. rewrite E. by case_match.
Qed.

(** X21.  The recency window has one slot: once a ping for another page has
    been accepted, a [Built] page that has been inactive for more than the
    threshold is removed by the next sweep, even if it was the most recently
    pinged page before. *)
Theorem ping_moves_exemption evs conn message now pinged page e t maxAge now' :
  pingedPage message = inr pinged →
  accepted message (run opts evs) = true →
  page ≠ pinged →
  entries (run opts evs) !! page = Some e → status e = Built →
  lastActiveTime e = Some t → now' - t > maxAge →
  entries (disposeInactiveEntries maxAge now'
             (step opts (run opts evs) (Message conn message now))) !! page = None.
Proof.
  intros Hpinged Hacc Hne He Hst Ht Hgt.
  rewrite dispose_entries. cbn [step].
  rewrite (proj2 (inactive_true _ _ _ _ _)); [done|].
  exists e, t. split_and!; try done.
  - unfold accepted in Hacc. unfold onMessage. rewrite Hpinged in *.
    destruct (entries (run opts evs) !! pinged) as [e1|]; [|done].
    apply bool_decide_eq_true in Hacc. rewrite Hacc.
    cbn [stateOf entries withEntries withLastAccessPages].
    by rewrite lookup_insert_ne.
  - rewrite onMessage_lastAccessPages, Hacc, Hpinged.
    pose proof (run_lastAccessPages_length opts evs) as Hlen.
    destruct (lastAccessPages (run opts evs)) as [|a [|b l]]; try done.
    cbn. congruence.
Qed.

(** X22.  A completion does not release the callers of a page that is still
    [Added], that is, asked for after the pass had started: in any run such a
    caller keeps waiting and the entry stays as it is, until a later pass
    picks the page up. *)
Theorem done_leaves_added_callers_waiting evs stats now i p e :
  promises (run opts evs) !! i = Some p → pstate p = Pending →
  entries (run opts evs) !! ppage p = Some e → status e = Added →
  promises (step opts (run opts evs) (Done stats now)) !! i = Some p
  ∧ entries (step opts (run opts evs) (Done stats now)) !! ppage p = Some e.
Proof.
  intros Hp Hpending He Hst. cbn [step]. split.
  - rewrite onDone_promises.
    destruct (wakes _ _ i) eqn:Hw; [|done]. exfalso.
    apply wakes_keys in Hw as (page & e' & He' & Hst' & Hi).
    destruct (run_listenersOwned opts evs page i Hi) as (p0 & Hp0 & <-).
    congruence.
  - rewrite onDone_entries, He. cbn. unfold doneEntry. by rewrite Hst.
Qed.

End Invariants.

(** ** The further properties on concrete runs *)

Lemma ping_without_page_throws_witness :
  @JSON_parse literalPlatform "{}" = Some (JObject [])
  ∧ @onMessage literalPlatform 1 "{}" 7 builtA = Throw TypeError builtA.
Proof.
  split; [reflexivity|].
  apply (proj1 (proj2 (@ping_without_page_throws literalPlatform 1 "{}" 7 builtA
                         (JObject []) eq_refl)) [] eq_refl).
  intros x Hx. by apply elem_of_nil in Hx.
Defined.

Lemma ping_not_accepted_changes_nothing_witness :
  @accepted examplePlatform (ping "/zz") builtA = false
  ∧ inherited "/zz" = false
  ∧ effects (stateOf (@onMessage examplePlatform 1 (ping "/zz") 7 builtA))
      = Send 1 (JObject [("invalid", JBool true)])
          :: ConsoleError "Client pings, but there's no entry for page: /zz"
          :: effects builtA.
Proof.
  split_and!; [vm_compute; reflexivity|vm_compute; reflexivity|].
  destruct (@ping_not_accepted_changes_nothing examplePlatform 1 (ping "/zz") 7
              builtA) as (_ & _ & _ & _ & _ & Hunknown & _);
    [vm_compute; reflexivity|].
  apply (Hunknown "/zz"); vm_compute; reflexivity.
Defined.

Lemma accepted_ping_protects_page_witness :
  lastAccessPages (@step examplePlatform exampleOptions builtA
                     (Message 1 (ping "/a") 20000)) = ["/a"].
Proof.
  apply (@accepted_ping_protects_page examplePlatform exampleOptions
           [askA; Make; Done cleanStats 0] 1 (ping "/a") 20000 "/a");
    vm_compute; reflexivity.
Defined.

Lemma fresh_pages_survive_sweep_witness :
  25000 - 0 ≤ 25000
  ∧ disposeInactiveEntries 25000 25000 (onDone cleanStats 0 (onMake addedA))
      = onDone cleanStats 0 (onMake addedA).
Proof.
  split; [lia|].
  apply (fresh_pages_survive_sweep 25000 0 25000 cleanStats addedA). lia.
Defined.


Lemma dispose_monotone_witness :
  entries (disposeInactiveEntries 25000 26000 builtA) !! "/a" = None
  ∧ entries (disposeInactiveEntries 25000 30000 builtA) !! "/a" = None.
Proof.
  split; [vm_compute; reflexivity|].
  apply (dispose_monotone 25000 25000 26000 30000 builtA "/a");
    [lia|lia|vm_compute; reflexivity].
Defined.

Lemma ping_moves_exemption_witness :
  entries (disposeInactiveEntries 25000 26000
             (@step examplePlatform exampleOptions
                (@run examplePlatform exampleOptions eventsAB)
                (Message 1 (ping "/a") 20000))) !! "/b" = None.
Proof.
  apply (@ping_moves_exemption examplePlatform exampleOptions eventsAB 1
           (ping "/a") 20000 "/a" "/b"
           (@entryOf examplePlatform exampleOptions "/app/pages/b.js" Built (Some 0))
           0 25000 26000);
    try (vm_compute; reflexivity); discriminate.
Defined.

Lemma done_leaves_added_callers_waiting_witness :
  promises (@step examplePlatform exampleOptions addedA (Done cleanStats 5)) !! 0%nat
    = Some {| ppage := "/a"; pstate := Pending |}
  ∧ entries (@step examplePlatform exampleOptions addedA (Done cleanStats 5)) !! "/a"
      = Some (exampleEntry Added None).
Proof.
  apply (@done_leaves_added_callers_waiting examplePlatform exampleOptions [askA]
           cleanStats 5 0%nat {| ppage := "/a"; pstate := Pending |}
           (exampleEntry Added None));
    try reflexivity; vm_compute; reflexivity.
Defined.

Lemma pass_releases_every_caller_witness :
  Forall (λ p, pstate p ≠ Pending)
         (promises (@run examplePlatform exampleOptions
                      ([askA; askB] ++ [Make; Done cleanStats 0]))).
Proof.
  apply (@pass_releases_every_caller examplePlatform exampleOptions [askA; askB]
           cleanStats 0).
  reflexivity.
Defined.

Lemma build_cycle_witness :
  pstate <$> promises (onDone cleanStats 0 (onMake
               (@ensurePage examplePlatform exampleOptions "/a"
                  (Some "/app/pages/a.js") initial))) !! 0%nat
    = Some Resolved.
Proof.
  apply (@build_cycle examplePlatform exampleOptions initial "/a"
           "/app/pages/a.js" cleanStats 0).
  - intros page id Hid. by apply elem_of_nil in Hid.
  - discriminate.
Defined.
